(** * arduino-red-clock: the multiplexed 4-digit 7-segment display driver

    A shallow embedding of [src/arduino-red-clock/arduino-red-clock.ino]:
    the [Display] class (constructor, [drawAt], [clean], [setDigit],
    [setPosition]), the sketch globals, [setup] and [loop], over an explicit
    model of the board (pin latches, pin modes, the millisecond clock and the
    DS3231 real-time clock), followed by the properties of the driver. *)

From Stdlib Require Import String Ascii ZArith Bool Lia List Sorted.
Import ListNotations.
Local Open Scope Z_scope.

(* ================================================================== *)
(** ** The board *)

(** Logic level of a digital pin ([HIGH] / [LOW] of the Arduino core). *)
Inductive level : Type := LOW | HIGH.

(** Pin direction ([pinMode]); the sketch only ever asks for [OUTPUT]. *)
Inductive pin_mode : Type := INPUT | OUTPUT | INPUT_PULLUP.

(** Modelled from the spec: the [RTCDateTime] structure of the DS3231
    library (shipped as [src/DS3231.zip], absent from the sources).  The
    sketch reads only its [hour] and [minute] fields, both [uint8_t]. *)
Record RTCDateTime : Type := mkDateTime { hour : Z; minute : Z }.

(** What the sketch asks of the board, in the order it asks it. *)
Inductive event : Type :=
| EPinMode (pin : Z) (m : pin_mode)
| EDigitalWrite (pin : Z) (val : level)
| EDelay (ms : Z)
| EMillis (result : Z)
| ERtcBegin
| ERtcSetDateTime
| ERtcGetDateTime (result : RTCDateTime).

(** A timed event: the true time (milliseconds since reset, unbounded) at
    which the request was issued, and the request. *)
Abbreviation entry := (Z * event)%type (only parsing).
Abbreviation trace := (list (Z * event)) (only parsing).

(** The machine: the board's pin latches and directions, true time, the
    environment's oracles ([elapse n] is the duration in ms of the [n]-th
    board operation, [rtc t] what the DS3231 would report at time [t]), and
    the sketch's two mutable globals. *)
Record world : Type := mkWorld {
  levels : Z -> level;
  modes : Z -> pin_mode;
  now : Z;
  steps : nat;
  elapse : nat -> Z;
  rtc : Z -> RTCDateTime;
  currentDateTime : RTCDateTime;
  lastReadTimestamp : Z
}.

Definition upd {V : Type} (pin : Z) (v : V) (f : Z -> V) : Z -> V :=
  fun p => if p =? pin then v else f p.

Definition with_levels (f : Z -> level) (w : world) : world :=
  mkWorld f (modes w) (now w) (steps w) (elapse w) (rtc w)
          (currentDateTime w) (lastReadTimestamp w).

Definition with_modes (f : Z -> pin_mode) (w : world) : world :=
  mkWorld (levels w) f (now w) (steps w) (elapse w) (rtc w)
          (currentDateTime w) (lastReadTimestamp w).

Definition with_currentDateTime (dt : RTCDateTime) (w : world) : world :=
  mkWorld (levels w) (modes w) (now w) (steps w) (elapse w) (rtc w)
          dt (lastReadTimestamp w).

Definition with_lastReadTimestamp (t : Z) (w : world) : world :=
  mkWorld (levels w) (modes w) (now w) (steps w) (elapse w) (rtc w)
          (currentDateTime w) t.

(** One board operation that lasts [ms] milliseconds on top of its own
    execution time. *)
Definition spend (ms : Z) (w : world) : world :=
  mkWorld (levels w) (modes w) (now w + ms + elapse w (steps w)) (S (steps w))
          (elapse w) (rtc w) (currentDateTime w) (lastReadTimestamp w).

(** The clock never runs backwards. *)
Definition advancing (w : world) : Prop := forall n, 0 <= elapse w n.

(* ================================================================== *)
(** ** The monad of sketch code

    A computation reads and changes the machine, emits the timed events it
    caused, and is undefined ([None]) where the C++ is: an array read outside
    its bounds. *)

Definition M (A : Type) : Type := world -> option (A * world * trace).

Definition ret {A : Type} (a : A) : M A := fun w => Some (a, w, []).

Definition bind {A B : Type} (m : M A) (k : A -> M B) : M B :=
  fun w =>
    match m w with
    | None => None
    | Some (a, w1, t1) =>
        match k a w1 with
        | None => None
        | Some (b, w2, t2) => Some (b, w2, t1 ++ t2)
        end
    end.

Definition undefined {A : Type} : M A := fun _ => None.

Declare Scope sketch_scope.
Delimit Scope sketch_scope with sketch.
Notation "x <- m ;; k" := (bind m (fun x => k))
  (at level 61, m at next level, right associativity) : sketch_scope.
Notation "m ;; k" := (bind m (fun _ => k))
  (at level 61, right associativity) : sketch_scope.
Local Open Scope sketch_scope.

(** [arr[i]] for a C array held as a list. *)
Definition array_get (arr : list Z) (i : Z) : M Z :=
  fun w =>
    if i <? 0 then None
    else match nth_error arr (Z.to_nat i) with
         | Some v => Some (v, w, [])
         | None => None
         end.

(** *** The Arduino core *)

Definition pinMode (pin : Z) (m : pin_mode) : M unit :=
  fun w => Some (tt, spend 0 (with_modes (upd pin m (modes w)) w),
                 [(now w, EPinMode pin m)]).

Definition digitalWrite (pin : Z) (val : level) : M unit :=
  fun w => Some (tt, spend 0 (with_levels (upd pin val (levels w)) w),
                 [(now w, EDigitalWrite pin val)]).

Definition delay (ms : Z) : M unit :=
  fun w => Some (tt, spend ms w, [(now w, EDelay ms)]).

(** [millis()] is an [unsigned long]: true time modulo 2^32. *)
Definition ULONG : Z := 2 ^ 32.

Definition millis : M Z :=
  fun w => let v := now w mod ULONG in
           Some (v, spend 0 w, [(now w, EMillis v)]).

(** *** The DS3231 library, as far as the sketch uses it *)

(** The global [DS3231 clock]. *)
Module clock.

(** Modelled from the spec: [DS3231::begin] of the library shipped as
    [src/DS3231.zip], absent from the sources; a one-time initialisation,
    which here only takes time. *)
Definition begin : M unit :=
  fun w => Some (tt, spend 0 w, [(now w, ERtcBegin)]).

(** Modelled from the spec: [DS3231::setDateTime], absent from the sources;
    it seeds the chip at start-up.  What the chip reports afterwards is the
    environment's [rtc]. *)
Definition setDateTime : M unit :=
  fun w => Some (tt, spend 0 w, [(now w, ERtcSetDateTime)]).

(** Modelled from the spec: [DS3231::getDateTime], absent from the sources;
    a synchronous read that always returns a value, the one [rtc] gives for
    the moment of the call. *)
Definition getDateTime : M RTCDateTime :=
  fun w => let v := rtc w (now w) in
           Some (v, spend 0 w, [(now w, ERtcGetDateTime v)]).

End clock.

(** Sketch globals. *)
Definition get_currentDateTime : M RTCDateTime :=
  fun w => Some (currentDateTime w, w, []).
Definition set_currentDateTime (dt : RTCDateTime) : M unit :=
  fun w => Some (tt, with_currentDateTime dt w, []).
Definition get_lastReadTimestamp : M Z :=
  fun w => Some (lastReadTimestamp w, w, []).
Definition set_lastReadTimestamp (t : Z) : M unit :=
  fun w => Some (tt, with_lastReadTimestamp t w, []).

(* ================================================================== *)
(** ** Pins and configuration *)

Definition DISPLAY_PIN_A : Z := 12.
Definition DISPLAY_PIN_B : Z := 8.
Definition DISPLAY_PIN_C : Z := 5.
Definition DISPLAY_PIN_D : Z := 3.
Definition DISPLAY_PIN_E : Z := 2.
Definition DISPLAY_PIN_F : Z := 11.
Definition DISPLAY_PIN_G : Z := 6.
Definition DISPLAY_PIN_DP : Z := 4.
Definition DISPLAY_PIN_D1 : Z := 13.
Definition DISPLAY_PIN_D2 : Z := 10.
Definition DISPLAY_PIN_D3 : Z := 9.
Definition DISPLAY_PIN_D4 : Z := 7.

Definition DIGIT_DISPLAY_DELAY : Z := 1.
Definition READ_TIME_PERIOD : Z := 1000.
Definition DOT_BLINK_PERIOD : Z := 1000.

(** The [B........] binary constants of the Arduino core. *)
Fixpoint bits_of (s : string) (acc : Z) : Z :=
  match s with
  | EmptyString => acc
  | String c s' => bits_of s' (2 * acc + (if Ascii.eqb c "1" then 1 else 0))
  end.
Definition B (s : string) : Z := bits_of s 0.

(* ================================================================== *)
(** ** class Display *)

(** [enum Pins]: indices into [m_pins]. *)
Module Pins.
Definition A : Z := 0.
Definition B : Z := 1.
Definition C : Z := 2.
Definition E : Z := 4.
Definition F : Z := 5.
Definition G : Z := 6.
Definition DP : Z := 7.
Definition D1 : Z := 8.
Definition D2 : Z := 9.
Definition D3 : Z := 10.
Definition D4 : Z := 11.
Definition COUNT : Z := 12.
End Pins.

(** The object: [int m_pins[Pins::COUNT]]. *)
Record Display : Type := mkDisplay { m_pins : list Z }.

(** Segment configurations, bit order A, B, C, D, E, F, G, 0. *)
Definition D_0 : Z := B "11111100".
Definition D_1 : Z := B "01100000".
Definition D_2 : Z := B "11011010".
Definition D_3 : Z := B "11110010".
Definition D_4 : Z := B "01100110".
Definition D_5 : Z := B "10110110".
Definition D_6 : Z := B "10111110".
Definition D_7 : Z := B "11100000".
Definition D_8 : Z := B "11111110".
Definition D_9 : Z := B "11110110".

Definition m_digits : list Z :=
  [D_0; D_1; D_2; D_3; D_4; D_5; D_6; D_7; D_8; D_9].

(** The initialisation loop of the constructor,
    [for (int i = 0; i < Pins::COUNT; i++)]. *)
Fixpoint Display_init (self : Display) (fuel : nat) (i : Z) : M unit :=
  match fuel with
  | O => undefined
  | S fuel' =>
      if i <? Pins.COUNT then
        p <- array_get (m_pins self) i ;;
        pinMode p OUTPUT ;;
        q <- array_get (m_pins self) i ;;
        digitalWrite q LOW ;;
        Display_init self fuel' (i + 1)
      else ret tt
  end.

(** The constructor. *)
Definition Display_new (pin_a pin_b pin_c pin_d pin_e pin_f pin_g pin_dp
                        pin_d1 pin_d2 pin_d3 pin_d4 : Z) : M Display :=
  let self := mkDisplay [pin_a; pin_b; pin_c; pin_d; pin_e; pin_f; pin_g;
                         pin_dp; pin_d1; pin_d2; pin_d3; pin_d4] in
  Display_init self 13 0 ;;
  ret self.

Definition clean (self : Display) : M unit :=
  p <- array_get (m_pins self) Pins.D1 ;; digitalWrite p HIGH ;;
  p <- array_get (m_pins self) Pins.D2 ;; digitalWrite p HIGH ;;
  p <- array_get (m_pins self) Pins.D3 ;; digitalWrite p HIGH ;;
  p <- array_get (m_pins self) Pins.D4 ;; digitalWrite p HIGH.

(** The loop of [setDigit]; [mask] is a [byte], so the shifted value is
    truncated to 8 bits when stored back. *)
Fixpoint setDigit_for (self : Display) (digit : Z) (fuel : nat)
                      (i : Z) (mask : Z) : M unit :=
  match fuel with
  | O => undefined
  | S fuel' =>
      if i <? 7 then
        p <- array_get (m_pins self) i ;;
        b <- array_get m_digits digit ;;
        digitalWrite p (if Z.land b mask =? 0 then LOW else HIGH) ;;
        setDigit_for self digit fuel' (i + 1) (Z.shiftr mask 1 mod 256)
      else ret tt
  end.

Definition setDigit (self : Display) (digit : Z) : M unit :=
  setDigit_for self digit 8 0 (B "10000000").

Definition setPosition (self : Display) (pos : Z) : M unit :=
  p <- array_get (m_pins self) Pins.D1 ;;
  digitalWrite p (if pos =? 0 then LOW else HIGH) ;;
  p <- array_get (m_pins self) Pins.D2 ;;
  digitalWrite p (if pos =? 1 then LOW else HIGH) ;;
  p <- array_get (m_pins self) Pins.D3 ;;
  digitalWrite p (if pos =? 2 then LOW else HIGH) ;;
  p <- array_get (m_pins self) Pins.D4 ;;
  digitalWrite p (if pos =? 3 then LOW else HIGH).

Definition drawAt (self : Display) (pos digit : Z) (displayDot : bool) : M unit :=
  clean self ;;
  setDigit self digit ;;
  p <- array_get (m_pins self) Pins.DP ;;
  digitalWrite p (if displayDot then HIGH else LOW) ;;
  setPosition self pos ;;
  delay DIGIT_DISPLAY_DELAY.

(* ================================================================== *)
(** ** The sketch *)

(** The global [Display d(...)], as its constructor leaves it. *)
Definition d : Display :=
  mkDisplay [DISPLAY_PIN_A; DISPLAY_PIN_B; DISPLAY_PIN_C; DISPLAY_PIN_D;
             DISPLAY_PIN_E; DISPLAY_PIN_F; DISPLAY_PIN_G; DISPLAY_PIN_DP;
             DISPLAY_PIN_D1; DISPLAY_PIN_D2; DISPLAY_PIN_D3; DISPLAY_PIN_D4].

(** Static initialisation: the constructor call of the global [d]. *)
Definition static_init : M Display :=
  Display_new DISPLAY_PIN_A DISPLAY_PIN_B DISPLAY_PIN_C DISPLAY_PIN_D
              DISPLAY_PIN_E DISPLAY_PIN_F DISPLAY_PIN_G DISPLAY_PIN_DP
              DISPLAY_PIN_D1 DISPLAY_PIN_D2 DISPLAY_PIN_D3 DISPLAY_PIN_D4.

Definition setup : M unit :=
  clock.begin ;;
  clock.setDateTime ;;
  dt <- clock.getDateTime ;;
  set_currentDateTime dt ;;
  t <- millis ;;
  set_lastReadTimestamp t.

(** The value of the local [blinkingDotState] of [loop] when [millis()]
    returned [t]; [%] and [/] are C's, on unsigned operands. *)
Definition blinkingDotState (t : Z) : bool :=
  Z.rem t DOT_BLINK_PERIOD >=? Z.quot DOT_BLINK_PERIOD 2.

(** [loop]; the subtraction is in [unsigned long], hence modulo 2^32. *)
Definition loop : M unit :=
  t <- millis ;;
  last <- get_lastReadTimestamp ;;
  (if (t - last) mod ULONG >=? READ_TIME_PERIOD then
     dt <- clock.getDateTime ;;
     set_currentDateTime dt ;;
     t' <- millis ;;
     set_lastReadTimestamp t'
   else ret tt) ;;
  t <- millis ;;
  let dotState := blinkingDotState t in
  c <- get_currentDateTime ;;
  drawAt d 0 (Z.quot (hour c) 10) false ;;
  c <- get_currentDateTime ;;
  drawAt d 1 (Z.rem (hour c) 10) dotState ;;
  c <- get_currentDateTime ;;
  drawAt d 2 (Z.quot (minute c) 10) false ;;
  c <- get_currentDateTime ;;
  drawAt d 3 (Z.rem (minute c) 10) false.

(** [n] turns of the Arduino main loop, [for (;;) loop();]. *)
Fixpoint loops (n : nat) : M unit :=
  match n with
  | O => ret tt
  | S n' => loop ;; loops n'
  end.

(** The program up to the [n]-th return of [loop]. *)
Definition sketch (n : nat) : M unit :=
  static_init ;; setup ;; loops n.

(* ================================================================== *)
(** ** Observing the display *)

Definition events (tr : trace) : list event := map snd tr.

(** The effect of one request on the pin latches. *)
Definition apply_event (e : event) (lv : Z -> level) : Z -> level :=
  match e with
  | EDigitalWrite pin val => upd pin val lv
  | _ => lv
  end.

Fixpoint replay (evs : list event) (lv : Z -> level) : Z -> level :=
  match evs with
  | [] => lv
  | e :: evs' => replay evs' (apply_event e lv)
  end.

(** The pin latches at the start of each [delay] of [evs], oldest first. *)
Fixpoint dwells (evs : list event) (lv : Z -> level) : list (Z -> level) :=
  match evs with
  | [] => []
  | EDelay _ :: evs' => lv :: dwells evs' lv
  | e :: evs' => dwells evs' (apply_event e lv)
  end.

(** The levels of the twelve display lines, in [enum Pins] order. *)
Definition snapshot (self : Display) (lv : Z -> level) : list level :=
  map lv (m_pins self).

Definition is_low (l : level) : bool :=
  match l with LOW => true | HIGH => false end.

Definition is_high (l : level) : bool :=
  match l with HIGH => true | LOW => false end.

(** Segment lines A..G of a snapshot. *)
Definition segments (s : list level) : list level := firstn 7 s.

(** The dot line DP of a snapshot. *)
Definition dot (s : list level) : level := nth 7 s LOW.

(** The digit-select lines D1..D4 of a snapshot. *)
Definition selects (s : list level) : list level := firstn 4 (skipn 8 s).

(** The positions whose digit-select line is active, that is LOW: the
    cathode is grounded. *)
Definition lit_positions (s : list level) : list Z :=
  filter (fun pos => is_low (nth (Z.to_nat (Pins.D1 + pos)) s HIGH)) [0; 1; 2; 3].

(** The segment levels A..G a configuration byte stands for: bits 7..1. *)
Definition pattern (b : Z) : list level :=
  map (fun k => if Z.testbit b k then HIGH else LOW) [7; 6; 5; 4; 3; 2; 1].

(** The pin assignment is usable: twelve lines, no two on one pin. *)
Definition wired (self : Display) : Prop :=
  length (m_pins self) = 12%nat /\ NoDup (m_pins self).

(* ================================================================== *)
(** ** From physical pins to display lines

    With a usable pin assignment a write to [m_pins[i]] changes line [i] of
    the snapshot and nothing else, so a run of the driver can be followed on
    the twelve lines alone. *)

(** A request as the driver means it: drive line [i], or wait. *)
Inductive act : Type :=
| Put (i : nat) (v : level)
| Hold (ms : Z).

Definition realize (self : Display) (a : act) : event :=
  match a with
  | Put i v => EDigitalWrite (nth i (m_pins self) 0) v
  | Hold ms => EDelay ms
  end.

Fixpoint put (i : nat) (v : level) (s : list level) : list level :=
  match s, i with
  | [], _ => []
  | _ :: s', O => v :: s'
  | x :: s', S i' => x :: put i' v s'
  end.

Definition apply_act (a : act) (s : list level) : list level :=
  match a with
  | Put i v => put i v s
  | Hold _ => s
  end.

Fixpoint run_acts (acts : list act) (s : list level) : list level :=
  match acts with
  | [] => s
  | a :: acts' => run_acts acts' (apply_act a s)
  end.

Fixpoint holds (acts : list act) (s : list level) : list (list level) :=
  match acts with
  | [] => []
  | Hold _ :: acts' => s :: holds acts' s
  | a :: acts' => holds acts' (apply_act a s)
  end.

Definition in_range (n : nat) (a : act) : Prop :=
  match a with
  | Put i _ => (i < n)%nat
  | Hold _ => True
  end.

(** The level [setDigit] writes for configuration [b] under [mask]. *)
Definition masked (b mask : Z) : level :=
  if Z.land b mask =? 0 then LOW else HIGH.

(** What [drawAt] asks for, line by line. *)
Definition clean_acts : list act :=
  [Put 8 HIGH; Put 9 HIGH; Put 10 HIGH; Put 11 HIGH].

Definition setDigit_acts (b : Z) : list act :=
  [Put 0 (masked b 128); Put 1 (masked b 64); Put 2 (masked b 32);
   Put 3 (masked b 16); Put 4 (masked b 8); Put 5 (masked b 4);
   Put 6 (masked b 2)].

Definition setPosition_acts (pos : Z) : list act :=
  [Put 8 (if pos =? 0 then LOW else HIGH);
   Put 9 (if pos =? 1 then LOW else HIGH);
   Put 10 (if pos =? 2 then LOW else HIGH);
   Put 11 (if pos =? 3 then LOW else HIGH)].

Definition drawAt_acts (pos digit : Z) (displayDot : bool) : list act :=
  clean_acts
  ++ setDigit_acts (nth (Z.to_nat digit) m_digits 0)
  ++ [Put 7 (if displayDot then HIGH else LOW)]
  ++ setPosition_acts pos
  ++ [Hold DIGIT_DISPLAY_DELAY].

(* ================================================================== *)
(** ** Summaries of display code

    [performs self m acts]: from every machine state [m] returns, having
    asked the board for exactly [acts] on the lines of [self]; the pin
    latches are the replay of those requests, and nothing else of the
    machine changes but the time, which does not run backwards. *)

Record outcome (self : Display) (acts : list act) (w w' : world) (tr : trace)
  : Prop := mkOutcome {
  out_events : events tr = map (realize self) acts;
  out_levels : levels w' = replay (events tr) (levels w);
  out_modes : modes w' = modes w;
  out_currentDateTime : currentDateTime w' = currentDateTime w;
  out_lastReadTimestamp : lastReadTimestamp w' = lastReadTimestamp w;
  out_elapse : elapse w' = elapse w;
  out_rtc : rtc w' = rtc w;
  out_now : advancing w -> now w <= now w'
}.

Definition performs (self : Display) (m : M unit) (acts : list act) : Prop :=
  forall w, exists w' tr, m w = Some (tt, w', tr) /\ outcome self acts w w' tr.

(* ================================================================== *)
(** ** What the eye sees: frames *)

Definition level_eqb (a b : level) : bool :=
  match a, b with
  | LOW, LOW | HIGH, HIGH => true
  | _, _ => false
  end.

Fixpoint levels_eqb (l1 l2 : list level) : bool :=
  match l1, l2 with
  | [], [] => true
  | a :: l1', b :: l2' => level_eqb a b && levels_eqb l1' l2'
  | _, _ => false
  end.

(** The digit whose configuration lights exactly the given segments. *)
Definition digit_shown (segs : list level) : option Z :=
  find (fun dg => levels_eqb (pattern (nth (Z.to_nat dg) m_digits 0)) segs)
       [0; 1; 2; 3; 4; 5; 6; 7; 8; 9].

(** What the display shows during one dwell: the lit positions, the digit
    on the segment lines and whether the dot is on. *)
Record frame : Type := mkFrame {
  lit : list Z;
  glyph : option Z;
  dotted : bool
}.

Definition frame_of (s : list level) : frame :=
  mkFrame (lit_positions s) (digit_shown (segments s)) (is_high (dot s)).

(** The frames of a run: one per [delay], oldest first. *)
Definition frames (self : Display) (evs : list event) (lv : Z -> level)
  : list frame :=
  map (fun l => frame_of (snapshot self l)) (dwells evs lv).

(* ================================================================== *)
(** ** The time cache *)

(** Both fields of a cached time have at most two decimal digits, as every
    time of day has; beyond that [loop] reads outside [m_digits]. *)
Definition two_digits (c : RTCDateTime) : Prop :=
  0 <= hour c <= 99 /\ 0 <= minute c <= 99.

(** The calls of [clock.getDateTime] in a trace: when, and what came back. *)
Definition reads (tr : trace) : list (Z * RTCDateTime) :=
  flat_map (fun e => match snd e with
                     | ERtcGetDateTime v => [(fst e, v)]
                     | _ => []
                     end) tr.

(** The result of the last call of [millis] among [evs], if any. *)
Definition last_millis (evs : list event) : option Z :=
  fold_left (fun acc e => match e with EMillis v => Some v | _ => acc end)
            evs None.

(** The conditional at the head of [loop], for the values [t] of [millis()]
    and [last] of [lastReadTimestamp]. *)
Definition loop_refresh (t last : Z) : M unit :=
  if (t - last) mod ULONG >=? READ_TIME_PERIOD then
    dt <- clock.getDateTime ;;
    set_currentDateTime dt ;;
    t' <- millis ;;
    set_lastReadTimestamp t'
  else ret tt.

(** What the refresh step of one turn of [loop] did: nothing, or one read
    of the clock at time [r] and a new time stamp taken at time [s]. *)
Inductive refreshed (w w' : world) (tr : trace) : Prop :=
| kept :
    (now w mod ULONG - lastReadTimestamp w) mod ULONG < READ_TIME_PERIOD ->
    reads tr = [] ->
    currentDateTime w' = currentDateTime w ->
    lastReadTimestamp w' = lastReadTimestamp w ->
    refreshed w w' tr
| renewed (r s : Z) :
    READ_TIME_PERIOD <= (now w mod ULONG - lastReadTimestamp w) mod ULONG ->
    reads tr = [(r, rtc w r)] ->
    currentDateTime w' = rtc w r ->
    lastReadTimestamp w' = s mod ULONG ->
    (advancing w -> now w <= r <= s /\ s <= now w') ->
    refreshed w w' tr.

(** Two reads are a full [READ_TIME_PERIOD] apart. *)
Definition far (a b : Z) : Prop := a + READ_TIME_PERIOD <= b.

(** Time [t] lies in the window of length [READ_TIME_PERIOD] opening at [a]. *)
Definition in_window (a t : Z) : bool := (a <=? t) && (t <? a + READ_TIME_PERIOD).

(** The state of the time cache between two turns of [loop]: the reads so
    far, [prev], are a period apart from one another, the cache holds what
    the latest of them returned, and the time stamp was taken at a time
    [Ts] after all of them. *)
Record cached (w : world) (prev : list (Z * RTCDateTime)) (Ts : Z) : Prop := {
  ca_stamp : lastReadTimestamp w = Ts mod ULONG;
  ca_past : Ts <= now w;
  ca_before : Forall (fun x => fst x <= Ts) prev;
  ca_far : StronglySorted far (map fst prev);
  ca_value : exists older r, prev = older ++ [(r, currentDateTime w)];
  ca_true : Forall (fun x => snd x = rtc w (fst x)) prev
}.

(* ================================================================== *)
(** ** Instants and durations *)

(** At most one digit-select line is active. *)
Definition calm (self : Display) (lv : Z -> level) : Prop :=
  (length (lit_positions (snapshot self lv)) <= 1)%nat.

(** [calm] holds before the first and after each of the requests [evs]. *)
Definition steady (self : Display) (evs : list event) (lv : Z -> level) : Prop :=
  forall n, calm self (replay (firstn n evs) lv).

(** A request that leaves the pin latches alone. *)
Definition quiet (e : event) : Prop :=
  match e with
  | EDigitalWrite _ _ => False
  | _ => True
  end.

(** Whenever [m] returns it has kept the environment's pace and, on a clock
    that does not run backwards, at least [k] ms have gone by. *)
Definition takes {A : Type} (m : M A) (k : Z) : Prop :=
  forall w a w' tr,
    m w = Some (a, w', tr) ->
    elapse w' = elapse w /\ (advancing w -> now w + k <= now w').

(** The last call of [millis] in a trace: the true time at which it was
    made and what it returned. *)
Definition last_millis_at (tr : trace) : option (Z * Z) :=
  fold_left (fun acc e => match snd e with
                          | EMillis v => Some (fst e, v)
                          | _ => acc
                          end) tr None.

(** An entry of a trace is well stamped: a call of [millis] returned the
    time of the call modulo 2^32. *)
Definition stamped (e : Z * event) : Prop :=
  match snd e with
  | EMillis v => v = fst e mod ULONG
  | _ => True
  end.

(** Whenever [m] returns, the environment's pace is kept, every entry of
    its trace is well stamped and, on a clock that does not run backwards,
    made between the call of [m] and its return. *)
Definition punctual {A : Type} (m : M A) : Prop :=
  forall w a w' tr,
    m w = Some (a, w', tr) ->
    elapse w' = elapse w /\
    Forall stamped tr /\
    (advancing w ->
     now w <= now w' /\ Forall (fun e => now w <= fst e <= now w') tr).

(* ================================================================== *)
(** ** Boards to run the sketch on *)

(** A board just out of reset: latches LOW, pins inputs, time 0. *)
Definition blank_world : world :=
  mkWorld (fun _ => LOW) (fun _ => INPUT) 0 0 (fun _ => 0)
          (fun _ => mkDateTime 0 0) (mkDateTime 0 0) 0.

(** The machine once the constructor of the global [d] has run on a board
    just out of reset. *)
Definition power_on : world :=
  match static_init blank_world with
  | Some (_, w, _) => w
  | None => blank_world
  end.

(** The machine after the first [drawAt] of the sketch's life. *)
Definition after_first_draw : world :=
  match drawAt d 0 1 false power_on with
  | Some (_, w, _) => w
  | None => power_on
  end.

(** A board out of reset whose clock chip reads [h]:[m] for ever, [h]:[m]
    being also the cached time; every board operation takes [e] ms. *)
Definition world_at (h m e : Z) : world :=
  mkWorld (fun _ => LOW) (fun _ => INPUT) 0 0 (fun _ => e)
          (fun _ => mkDateTime h m) (mkDateTime h m) 0.

(** A board whose clock chip shows a time that changes every millisecond,
    and on which every operation takes 10 ms. *)
Definition racing_world : world :=
  mkWorld (fun _ => LOW) (fun _ => INPUT) 0 0 (fun _ => 10)
          (fun t => mkDateTime ((t / 60) mod 24) (t mod 60)) (mkDateTime 0 0) 0.

(** A board whose time stamp was taken just before [millis()] wrapped
    around, entered 1200 ms later, just after. *)
Definition wrapped_world : world :=
  mkWorld (fun _ => LOW) (fun _ => INPUT) (ULONG + 700) 0 (fun _ => 1)
          (fun _ => mkDateTime 12 34) (mkDateTime 12 33) (ULONG - 500).

(** A board entered at true time [t0], the time stamp just taken, on which
    board operations take no time. *)
Definition world_when (t0 : Z) : world :=
  mkWorld (fun _ => LOW) (fun _ => INPUT) t0 0 (fun _ => 0)
          (fun _ => mkDateTime 0 0) (mkDateTime 0 0) (t0 mod ULONG).

(** The requests a computation makes from a given state. *)
Definition requests {A : Type} (m : M A) (w : world) : list event :=
  match m w with
  | Some (_, _, tr) => events tr
  | None => []
  end.

(** The timed trace of a computation from a given state. *)
Definition transcript {A : Type} (m : M A) (w : world) : trace :=
  match m w with
  | Some (_, _, tr) => tr
  | None => []
  end.

Lemma map_upd_fresh (lv : Z -> level) p v l :
  ~ In p l -> map (upd p v lv) l = map lv l.
Proof.
  intros Hp. apply map_ext_in. intros q Hq. unfold upd.
  destruct (Z.eqb_spec q p); [subst; contradiction | reflexivity].
Qed.

Lemma map_upd_nth (lv : Z -> level) v l :
  NoDup l -> forall i, (i < length l)%nat ->
  map (upd (nth i l 0) v lv) l = put i v (map lv l).
Proof.
  induction 1 as [|a l Ha Hl IH]; intros i Hi; simpl in Hi; [lia|].
  destruct i as [|i]; simpl.
  - unfold upd at 1. rewrite Z.eqb_refl. f_equal. now apply map_upd_fresh.
  - unfold upd at 1.
    assert (In (nth i l 0) l) by (apply nth_In; lia).
    destruct (Z.eqb_spec a (nth i l 0)) as [E|_]; [congruence|].
    f_equal. apply IH. lia.
Qed.

Lemma snapshot_apply self a lv :
  NoDup (m_pins self) -> in_range (length (m_pins self)) a ->
  snapshot self (apply_event (realize self a) lv) = apply_act a (snapshot self lv).
Proof.
  intros Hn Hr. destruct a as [i v|ms]; simpl; [|reflexivity].
  unfold snapshot. now apply map_upd_nth.
Qed.

Lemma snapshot_replay self acts :
  NoDup (m_pins self) -> Forall (in_range (length (m_pins self))) acts ->
  forall lv, snapshot self (replay (map (realize self) acts) lv)
             = run_acts acts (snapshot self lv).
Proof.
  intros Hn. induction 1 as [|a acts Ha _ IH]; intros lv; simpl; [reflexivity|].
  rewrite IH. f_equal. now apply snapshot_apply.
Qed.

Lemma snapshot_dwells self acts :
  NoDup (m_pins self) -> Forall (in_range (length (m_pins self))) acts ->
  forall lv, map (snapshot self) (dwells (map (realize self) acts) lv)
             = holds acts (snapshot self lv).
Proof.
  intros Hn. induction 1 as [|a acts Ha _ IH]; intros lv; simpl; [reflexivity|].
  destruct a as [i v|ms]; simpl.
  - rewrite IH. f_equal. now apply (snapshot_apply self (Put i v)).
  - f_equal. apply IH.
Qed.

Lemma digit_cases (digit : Z) :
  0 <= digit <= 9 ->
  digit = 0 \/ digit = 1 \/ digit = 2 \/ digit = 3 \/ digit = 4 \/
  digit = 5 \/ digit = 6 \/ digit = 7 \/ digit = 8 \/ digit = 9.
Proof. lia. Qed.

Lemma wired_pins self :
  wired self ->
  exists p0 p1 p2 p3 p4 p5 p6 p7 p8 p9 p10 p11,
    m_pins self = [p0; p1; p2; p3; p4; p5; p6; p7; p8; p9; p10; p11].
Proof.
  intros [Hl _]. destruct self as [l]; simpl in *.
  do 12 (destruct l as [|? l]; [discriminate|]).
  destruct l; [|discriminate]. repeat eexists.
Qed.

(* ================================================================== *)
(** ** What display code does to the machine *)

Lemma replay_app evs1 evs2 lv :
  replay (evs1 ++ evs2) lv = replay evs2 (replay evs1 lv).
Proof. revert lv; induction evs1 as [|e evs1 IH]; intros lv; simpl; auto. Qed.

Lemma dwells_app evs1 evs2 lv :
  dwells (evs1 ++ evs2) lv = dwells evs1 lv ++ dwells evs2 (replay evs1 lv).
Proof.
  revert lv; induction evs1 as [|e evs1 IH]; intros lv; simpl; auto.
  destruct e; simpl; rewrite IH; reflexivity.
Qed.

Lemma performs_ret self : performs self (ret tt) [].
Proof.
  intros w. exists w, []. split; [reflexivity|].
  constructor; simpl; auto. lia.
Qed.

Lemma performs_digitalWrite self i v :
  performs self (digitalWrite (nth i (m_pins self) 0) v) [Put i v].
Proof.
  intros w. eexists; eexists; split; [reflexivity|].
  constructor; simpl; auto.
  intros Ha. specialize (Ha (steps w)). lia.
Qed.

Lemma performs_delay self ms :
  0 <= ms -> performs self (delay ms) [Hold ms].
Proof.
  intros Hms w. eexists; eexists; split; [reflexivity|].
  constructor; simpl; auto.
  intros Ha. specialize (Ha (steps w)). lia.
Qed.

Lemma performs_seq self m k acts1 acts2 :
  performs self m acts1 -> performs self k acts2 ->
  performs self (m ;; k) (acts1 ++ acts2).
Proof.
  intros Hm Hk w.
  destruct (Hm w) as (w1 & t1 & E1 & O1).
  destruct (Hk w1) as (w2 & t2 & E2 & O2).
  exists w2, (t1 ++ t2). split.
  - unfold bind. rewrite E1, E2. reflexivity.
  - destruct O1 as [e1 l1 m1 c1 r1 x1 y1 n1], O2 as [e2 l2 m2 c2 r2 x2 y2 n2].
    unfold events in *.
    constructor; unfold events; try congruence.
    + rewrite !map_app, e1, e2. reflexivity.
    + rewrite map_app, replay_app, l2, l1. reflexivity.
    + intros Ha. assert (Ha1 : advancing w1) by (unfold advancing in *; congruence).
      specialize (n1 Ha). specialize (n2 Ha1). lia.
Qed.

Lemma performs_array_get self arr i v k acts :
  0 <= i -> nth_error arr (Z.to_nat i) = Some v ->
  performs self (k v) acts ->
  performs self (x <- array_get arr i ;; k x) acts.
Proof.
  intros Hi Hv Hk w.
  destruct (Hk w) as (w' & tr & E & O).
  exists w', tr. split; [|exact O].
  unfold bind, array_get.
  destruct (Z.ltb_spec i 0); [lia|]. rewrite Hv, E. reflexivity.
Qed.

Lemma performs_pin self i (k : Z -> M unit) acts :
  0 <= i -> (Z.to_nat i < length (m_pins self))%nat ->
  performs self (k (nth (Z.to_nat i) (m_pins self) 0)) acts ->
  performs self (p <- array_get (m_pins self) i ;; k p) acts.
Proof.
  intros Hi Hlen. apply performs_array_get; [exact Hi|].
  now apply nth_error_nth'.
Qed.

Ltac pin_step :=
  apply performs_pin; [unfold Pins.D1, Pins.D2, Pins.D3, Pins.D4, Pins.DP; lia
                      | simpl; lia |].

Lemma clean_performs self :
  wired self -> performs self (clean self) clean_acts.
Proof.
  intros [Hl _]. unfold clean, clean_acts.
  pin_step. apply (performs_seq self _ _ [_] [_; _; _]); [apply performs_digitalWrite|].
  pin_step. apply (performs_seq self _ _ [_] [_; _]); [apply performs_digitalWrite|].
  pin_step. apply (performs_seq self _ _ [_] [_]); [apply performs_digitalWrite|].
  pin_step. apply performs_digitalWrite.
Qed.

Ltac write_step :=
  eapply (performs_seq _ _ _ [_] _); [apply performs_digitalWrite|].

Lemma setDigit_performs self digit b :
  wired self -> 0 <= digit -> nth_error m_digits (Z.to_nat digit) = Some b ->
  performs self (setDigit self digit) (setDigit_acts b).
Proof.
  intros [Hl _] Hd Hb. unfold setDigit, setDigit_acts, masked.
  cbn [setDigit_for].
  change (B "10000000") with 128.
  change (0 <? 7) with true; cbv iota.
  pin_step. apply (performs_array_get self _ _ b); [exact Hd | exact Hb |]. write_step.
  change (0 + 1 <? 7) with true; cbv iota.
  pin_step. apply (performs_array_get self _ _ b); [exact Hd | exact Hb |]. write_step.
  change (0 + 1 + 1 <? 7) with true; cbv iota.
  pin_step. apply (performs_array_get self _ _ b); [exact Hd | exact Hb |]. write_step.
  change (0 + 1 + 1 + 1 <? 7) with true; cbv iota.
  pin_step. apply (performs_array_get self _ _ b); [exact Hd | exact Hb |]. write_step.
  change (0 + 1 + 1 + 1 + 1 <? 7) with true; cbv iota.
  pin_step. apply (performs_array_get self _ _ b); [exact Hd | exact Hb |]. write_step.
  change (0 + 1 + 1 + 1 + 1 + 1 <? 7) with true; cbv iota.
  pin_step. apply (performs_array_get self _ _ b); [exact Hd | exact Hb |]. write_step.
  change (0 + 1 + 1 + 1 + 1 + 1 + 1 <? 7) with true; cbv iota.
  pin_step. apply (performs_array_get self _ _ b); [exact Hd | exact Hb |]. write_step.
  change (0 + 1 + 1 + 1 + 1 + 1 + 1 + 1 <? 7) with false; cbv iota.
  apply performs_ret.
Qed.

Lemma setPosition_performs self pos :
  wired self -> performs self (setPosition self pos) (setPosition_acts pos).
Proof.
  intros [Hl _]. unfold setPosition, setPosition_acts.
  pin_step. write_step. pin_step. write_step. pin_step. write_step.
  pin_step. apply performs_digitalWrite.
Qed.

Lemma m_digits_defined digit :
  0 <= digit <= 9 ->
  nth_error m_digits (Z.to_nat digit) = Some (nth (Z.to_nat digit) m_digits 0).
Proof.
  intros H. apply nth_error_nth'. simpl. lia.
Qed.

Lemma drawAt_performs self pos digit displayDot :
  wired self -> 0 <= digit <= 9 ->
  performs self (drawAt self pos digit displayDot)
           (drawAt_acts pos digit displayDot).
Proof.
  intros Hw Hd. unfold drawAt, drawAt_acts.
  apply performs_seq; [now apply clean_performs|].
  apply performs_seq.
  { apply setDigit_performs; [exact Hw | lia | now apply m_digits_defined]. }
  destruct Hw as [Hl Hn].
  pin_step. write_step.
  apply performs_seq; [now apply setPosition_performs|].
  apply performs_delay. unfold DIGIT_DISPLAY_DELAY. lia.
Qed.

Lemma wired_snapshot self lv :
  wired self ->
  exists l0 l1 l2 l3 l4 l5 l6 l7 l8 l9 l10 l11,
    snapshot self lv = [l0; l1; l2; l3; l4; l5; l6; l7; l8; l9; l10; l11].
Proof.
  intros Hw. destruct (wired_pins self Hw)
    as (p0&p1&p2&p3&p4&p5&p6&p7&p8&p9&p10&p11&E).
  unfold snapshot. rewrite E. simpl. repeat eexists.
Qed.

Lemma Forall_prefix {A : Type} (P : A -> Prop) (l : list A) :
  Forall P l -> forall n, Forall P (firstn n l).
Proof.
  induction 1 as [|x l Hx _ IH]; intros [|n]; simpl; auto.
Qed.

Lemma drawAt_acts_in_range pos digit displayDot :
  Forall (in_range 12) (drawAt_acts pos digit displayDot).
Proof.
  unfold drawAt_acts, clean_acts, setDigit_acts, setPosition_acts.
  repeat (apply Forall_app; split);
    repeat (apply Forall_cons; [simpl; try lia; exact I|]); apply Forall_nil.
Qed.

(** One call of [drawAt], followed on the twelve lines. *)
Lemma drawAt_lines self pos digit displayDot w :
  wired self -> 0 <= digit <= 9 ->
  exists w' tr,
    drawAt self pos digit displayDot w = Some (tt, w', tr) /\
    outcome self (drawAt_acts pos digit displayDot) w w' tr /\
    snapshot self (levels w')
      = run_acts (drawAt_acts pos digit displayDot) (snapshot self (levels w)) /\
    map (snapshot self) (dwells (events tr) (levels w))
      = holds (drawAt_acts pos digit displayDot) (snapshot self (levels w)) /\
    forall n, snapshot self (replay (firstn n (events tr)) (levels w))
              = run_acts (firstn n (drawAt_acts pos digit displayDot))
                         (snapshot self (levels w)).
Proof.
  intros Hw Hd.
  destruct (drawAt_performs self pos digit displayDot Hw Hd w) as (w' & tr & E & O).
  exists w', tr. split; [exact E|]. split; [exact O|].
  pose proof (drawAt_acts_in_range pos digit displayDot) as Hr.
  destruct Hw as [Hl Hn]. rewrite <- Hl in Hr.
  rewrite (out_levels _ _ _ _ _ O), (out_events _ _ _ _ _ O).
  split; [now apply snapshot_replay|].
  split; [now apply snapshot_dwells|].
  intros n. rewrite firstn_map. apply snapshot_replay; [exact Hn|].
  now apply Forall_prefix.
Qed.

Lemma position_cases (pos : Z) :
  0 <= pos <= 3 -> pos = 0 \/ pos = 1 \/ pos = 2 \/ pos = 3.
Proof. lia. Qed.

Lemma setPosition_acts_outside pos :
  pos < 0 \/ 3 < pos ->
  setPosition_acts pos = [Put 8 HIGH; Put 9 HIGH; Put 10 HIGH; Put 11 HIGH].
Proof.
  intros H. unfold setPosition_acts.
  destruct (Z.eqb_spec pos 0); [lia|]. destruct (Z.eqb_spec pos 1); [lia|].
  destruct (Z.eqb_spec pos 2); [lia|]. destruct (Z.eqb_spec pos 3); [lia|].
  reflexivity.
Qed.

Ltac on_lines self w Hw :=
  let s := fresh "s" in
  destruct (wired_snapshot self (levels w) Hw)
    as (sA & sB & sC & sD & sE & sF & sG & sDP & sD1 & sD2 & sD3 & sD4 & s);
  rewrite s in *.

(** Discharges [wired] for a display whose pins are given numbers. *)
Ltac concrete_wiring :=
  split; [reflexivity|]; simpl;
  repeat (constructor; [simpl; intuition discriminate|]); constructor.

(* ================================================================== *)
(** ** The display driver *)

(** C1.  For a position in 0..3 and a digit in 0..9, when [drawAt] starts
    its dwell [delay] the digit-select line of that position is LOW (active)
    and the three others are HIGH: exactly the requested position is lit. *)
Theorem drawAt_selects_position self pos digit displayDot w :
  wired self -> 0 <= pos <= 3 -> 0 <= digit <= 9 ->
  exists w' tr,
    drawAt self pos digit displayDot w = Some (tt, w', tr) /\
    map (fun lv => lit_positions (snapshot self lv)) (dwells (events tr) (levels w))
      = [[pos]] /\
    map (fun lv => selects (snapshot self lv)) (dwells (events tr) (levels w))
      = [map (fun k => if k =? pos then LOW else HIGH) [0; 1; 2; 3]].
Proof.
  intros Hw Hp Hd.
  destruct (drawAt_lines self pos digit displayDot w Hw Hd)
    as (w' & tr & E & _ & _ & Hh & _).
  exists w', tr. split; [exact E|].
  rewrite <- (map_map (snapshot self) lit_positions),
          <- (map_map (snapshot self) selects), Hh.
  on_lines self w Hw.
  destruct (position_cases pos Hp) as [?|[?|[?|?]]]; subst pos;
    split; reflexivity.
Qed.

Lemma drawAt_selects_position_witness :
  exists w' tr,
    drawAt d 2 7 true blank_world = Some (tt, w', tr) /\
    map (fun lv => lit_positions (snapshot d lv))
        (dwells (events tr) (levels blank_world)) = [[2]] /\
    map (fun lv => selects (snapshot d lv))
        (dwells (events tr) (levels blank_world))
      = [map (fun k => if k =? 2 then LOW else HIGH) [0; 1; 2; 3]].
Proof.
  apply (drawAt_selects_position d 2 7 true blank_world).
  - concrete_wiring.
  - lia.
  - lia.
Defined.

(** C3.  For a digit in 0..9, when [drawAt] returns the segment lines A..G
    carry exactly bits 7..1 of [m_digits[digit]], in that order: HIGH where
    the bit is set, LOW where it is not. *)
Theorem drawAt_segments self pos digit displayDot w :
  wired self -> 0 <= digit <= 9 ->
  exists w' tr,
    drawAt self pos digit displayDot w = Some (tt, w', tr) /\
    segments (snapshot self (levels w'))
      = pattern (nth (Z.to_nat digit) m_digits 0).
Proof.
  intros Hw Hd.
  destruct (drawAt_lines self pos digit displayDot w Hw Hd)
    as (w' & tr & E & _ & Hs & _ & _).
  exists w', tr. split; [exact E|].
  rewrite Hs. on_lines self w Hw.
  destruct (digit_cases digit Hd) as [?|[?|[?|[?|[?|[?|[?|[?|[?|?]]]]]]]]];
    subst digit; reflexivity.
Qed.

Lemma drawAt_segments_witness :
  exists w' tr,
    drawAt d 0 4 false blank_world = Some (tt, w', tr) /\
    segments (snapshot d (levels w')) = pattern (nth (Z.to_nat 4) m_digits 0).
Proof.
  apply (drawAt_segments d 0 4 false blank_world).
  - concrete_wiring.
  - lia.
Defined.

(** The ten configurations, as the segments they light. *)
Lemma patterns_enumerated :
  map pattern m_digits =
  [ (* 0 *) [HIGH; HIGH; HIGH; HIGH; HIGH; HIGH; LOW];
    (* 1 *) [LOW; HIGH; HIGH; LOW; LOW; LOW; LOW];
    (* 2 *) [HIGH; HIGH; LOW; HIGH; HIGH; LOW; HIGH];
    (* 3 *) [HIGH; HIGH; HIGH; HIGH; LOW; LOW; HIGH];
    (* 4 *) [LOW; HIGH; HIGH; LOW; LOW; HIGH; HIGH];
    (* 5 *) [HIGH; LOW; HIGH; HIGH; LOW; HIGH; HIGH];
    (* 6 *) [HIGH; LOW; HIGH; HIGH; HIGH; HIGH; HIGH];
    (* 7 *) [HIGH; HIGH; HIGH; LOW; LOW; LOW; LOW];
    (* 8 *) [HIGH; HIGH; HIGH; HIGH; HIGH; HIGH; HIGH];
    (* 9 *) [HIGH; HIGH; HIGH; HIGH; LOW; HIGH; HIGH] ].
Proof. reflexivity. Qed.

(** C4.  When [drawAt] returns, the dot line DP is HIGH exactly when
    [displayDot] is true, whatever the position and the digit (a digit of
    the table, outside which the call is undefined). *)
Theorem drawAt_dot self pos digit displayDot w :
  wired self -> 0 <= digit <= 9 ->
  exists w' tr,
    drawAt self pos digit displayDot w = Some (tt, w', tr) /\
    dot (snapshot self (levels w')) = (if displayDot then HIGH else LOW) /\
    (dot (snapshot self (levels w')) = HIGH <-> displayDot = true).
Proof.
  intros Hw Hd.
  destruct (drawAt_lines self pos digit displayDot w Hw Hd)
    as (w' & tr & E & _ & Hs & _ & _).
  exists w', tr. split; [exact E|].
  rewrite Hs. on_lines self w Hw.
  assert (Hdot : dot (run_acts (drawAt_acts pos digit displayDot)
                               [sA; sB; sC; sD; sE; sF; sG; sDP; sD1; sD2; sD3; sD4])
                 = if displayDot then HIGH else LOW) by reflexivity.
  rewrite Hdot. split; [reflexivity|].
  destruct displayDot; split; congruence.
Qed.

Lemma drawAt_dot_witness :
  exists w' tr,
    drawAt d 1 3 true blank_world = Some (tt, w', tr) /\
    dot (snapshot d (levels w')) = (if true then HIGH else LOW) /\
    (dot (snapshot d (levels w')) = HIGH <-> true = true).
Proof.
  apply (drawAt_dot d 1 3 true blank_world).
  - concrete_wiring.
  - lia.
Defined.

(** C9.  For a position outside 0..3 (and a digit in 0..9), [drawAt] leaves
    all four digit-select lines HIGH: from the end of the blanking on, at
    the dwell and at the return, no position is lit. *)
Theorem drawAt_outside_positions self pos digit displayDot w :
  wired self -> pos < 0 \/ 3 < pos -> 0 <= digit <= 9 ->
  exists w' tr,
    drawAt self pos digit displayDot w = Some (tt, w', tr) /\
    map (fun lv => selects (snapshot self lv)) (dwells (events tr) (levels w))
      = [[HIGH; HIGH; HIGH; HIGH]] /\
    selects (snapshot self (levels w')) = [HIGH; HIGH; HIGH; HIGH] /\
    forall n, (4 <= n)%nat ->
      lit_positions (snapshot self (replay (firstn n (events tr)) (levels w))) = [].
Proof.
  intros Hw Hp Hd.
  destruct (drawAt_lines self pos digit displayDot w Hw Hd)
    as (w' & tr & E & _ & Hs & Hh & Hn).
  exists w', tr. split; [exact E|].
  rewrite <- (map_map (snapshot self) selects), Hh, Hs.
  unfold drawAt_acts. rewrite (setPosition_acts_outside pos Hp).
  on_lines self w Hw.
  split; [reflexivity|]. split; [reflexivity|].
  intros n Hge. rewrite Hn.
  unfold drawAt_acts. rewrite (setPosition_acts_outside pos Hp).
  do 4 (destruct n as [|n]; [lia|]).
  do 14 (destruct n as [|n]; [reflexivity|]).
  reflexivity.
Qed.

Lemma drawAt_outside_positions_witness :
  exists w' tr,
    drawAt d 4 9 false blank_world = Some (tt, w', tr) /\
    map (fun lv => selects (snapshot d lv))
        (dwells (events tr) (levels blank_world))
      = [[HIGH; HIGH; HIGH; HIGH]] /\
    selects (snapshot d (levels w')) = [HIGH; HIGH; HIGH; HIGH] /\
    forall n, (4 <= n)%nat ->
      lit_positions (snapshot d (replay (firstn n (events tr))
                                        (levels blank_world))) = [].
Proof.
  apply (drawAt_outside_positions d 4 9 false blank_world).
  - concrete_wiring.
  - right; lia.
  - lia.
Defined.

Lemma select_not_segment self i :
  wired self -> (8 <= i < 12)%nat ->
  ~ In (nth i (m_pins self) 0) (firstn 8 (m_pins self)).
Proof.
  intros [Hl Hn] Hi Hin.
  destruct (In_nth _ _ 0 Hin) as (j & Hj & Ej).
  rewrite length_firstn, Hl in Hj. simpl in Hj.
  rewrite nth_firstn in Ej. destruct (Nat.ltb_spec j 8) as [_|?]; [|lia].
  assert (j = i); [|lia].
  apply (proj1 (NoDup_nth (m_pins self) 0) Hn); [lia | lia | exact Ej].
Qed.

Lemma position_split (pos : Z) :
  pos = 0 \/ pos = 1 \/ pos = 2 \/ pos = 3 \/ (pos < 0 \/ 3 < pos).
Proof. lia. Qed.

(** C2, as the code has it.  If at most one digit-select line is active
    when [drawAt] is entered, at most one is active at every instant of the
    call.  Whatever the state at entry, at most one is active from the end
    of the blanking on, and around every write to a segment line or to the
    dot line all four are inactive. *)
Theorem drawAt_one_select_at_a_time self pos digit displayDot w :
  wired self -> 0 <= digit <= 9 ->
  exists w' tr,
    drawAt self pos digit displayDot w = Some (tt, w', tr) /\
    ((length (lit_positions (snapshot self (levels w))) <= 1)%nat ->
     forall n,
       (length (lit_positions
          (snapshot self (replay (firstn n (events tr)) (levels w)))) <= 1)%nat) /\
    (forall n, (4 <= n)%nat ->
       (length (lit_positions
          (snapshot self (replay (firstn n (events tr)) (levels w)))) <= 1)%nat) /\
    (forall n pin val,
       nth_error (events tr) n = Some (EDigitalWrite pin val) ->
       In pin (firstn 8 (m_pins self)) ->
       lit_positions
         (snapshot self (replay (firstn n (events tr)) (levels w))) = [] /\
       lit_positions
         (snapshot self (replay (firstn (S n) (events tr)) (levels w))) = []).
Proof.
  intros Hw Hd.
  destruct (drawAt_lines self pos digit displayDot w Hw Hd)
    as (w' & tr & E & O & _ & _ & Hn).
  exists w', tr. split; [exact E|].
  assert (Hlate : forall n, (4 <= n)%nat ->
            (length (lit_positions
               (snapshot self (replay (firstn n (events tr)) (levels w)))) <= 1)%nat).
  { intros n Hge. rewrite Hn. on_lines self w Hw.
    do 4 (destruct n as [|n]; [lia|]). clear Hge.
    destruct (position_split pos) as [?|[?|[?|[?|Hout]]]];
      [subst pos | subst pos | subst pos | subst pos
       | unfold drawAt_acts; rewrite (setPosition_acts_outside pos Hout)].
    all: do 14 (destruct n as [|n]; [simpl; lia|]); simpl; lia. }
  split; [|split; [exact Hlate|]].
  - intros Hentry n.
    destruct (Nat.le_gt_cases 4 n) as [Hge|Hlt]; [now apply Hlate|].
    rewrite Hn. on_lines self w Hw.
    destruct n as [|[|[|[|n]]]]; [| | | |lia].
    all: destruct sD1, sD2, sD3, sD4; simpl in Hentry |- *; lia.
  - intros n pin val Hev Hin.
    rewrite (out_events _ _ _ _ _ O) in Hev. rewrite !Hn.
    assert (Hsel : forall i, (8 <= i < 12)%nat -> pin <> nth i (m_pins self) 0).
    { intros i Hi Epin. subst pin. exact (select_not_segment self i Hw Hi Hin). }
    on_lines self w Hw.
    do 4 (destruct n as [|n];
          [simpl in Hev; injection Hev as Epin _; exfalso;
           symmetry in Epin; revert Epin; apply Hsel; lia|]).
    do 8 (destruct n as [|n]; [split; reflexivity|]).
    do 4 (destruct n as [|n];
          [simpl in Hev; injection Hev as Epin _; exfalso;
           symmetry in Epin; revert Epin; apply Hsel; lia|]).
    destruct n as [|n]; simpl in Hev; [discriminate|].
    destruct n; discriminate.
Qed.

Lemma drawAt_one_select_at_a_time_witness :
  (length (lit_positions (snapshot d (levels after_first_draw))) <= 1)%nat /\
  exists w' tr,
    drawAt d 3 8 false after_first_draw = Some (tt, w', tr) /\
    (forall n,
       (length (lit_positions
          (snapshot d (replay (firstn n (events tr))
                              (levels after_first_draw)))) <= 1)%nat) /\
    (forall n pin val,
       nth_error (events tr) n = Some (EDigitalWrite pin val) ->
       In pin (firstn 8 (m_pins d)) ->
       lit_positions
         (snapshot d (replay (firstn n (events tr))
                             (levels after_first_draw))) = [] /\
       lit_positions
         (snapshot d (replay (firstn (S n) (events tr))
                             (levels after_first_draw))) = []).
Proof.
  assert (Hentry : (length (lit_positions
                      (snapshot d (levels after_first_draw))) <= 1)%nat)
    by (vm_compute; lia).
  split; [exact Hentry|].
  destruct (drawAt_one_select_at_a_time d 3 8 false after_first_draw)
    as (w' & tr & E & Hall & _ & Hseg).
  - concrete_wiring.
  - lia.
  - exists w', tr. split; [exact E|]. split; [exact (Hall Hentry) | exact Hseg].
Defined.

(** C2, as stated, fails on the first [drawAt] after the constructor: the
    constructor has driven all four digit-select lines LOW, and after the
    first write of [clean] three of them are still active. *)
Lemma first_drawAt_three_selects_active :
  static_init blank_world <> None /\
  drawAt d 0 0 false power_on <> None /\
  lit_positions
    (snapshot d (replay (firstn 1 (requests (drawAt d 0 0 false) power_on))
                        (levels power_on))) = [1; 2; 3] /\
  ~ (forall n,
       (length (lit_positions
          (snapshot d (replay (firstn n (requests (drawAt d 0 0 false) power_on))
                              (levels power_on)))) <= 1)%nat).
Proof.
  split; [vm_compute; discriminate|].
  split; [vm_compute; discriminate|].
  split; [vm_compute; reflexivity|].
  intros H. specialize (H 1%nat). vm_compute in H. lia.
Qed.

Lemma setDigit_acts_in_range b : Forall (in_range 12) (setDigit_acts b).
Proof.
  unfold setDigit_acts.
  repeat (apply Forall_cons; [simpl; lia|]); apply Forall_nil.
Qed.

(** C10.  [setDigit] writes the seven segment lines A..G, in that order,
    each with bit 7..1 of the configuration byte, and nothing else: the dot
    line and the four digit-select lines keep their levels.  Bit 0 of every
    configuration is 0 and no write depends on it. *)
Theorem setDigit_frame self digit w :
  wired self -> 0 <= digit <= 9 ->
  exists w' tr,
    setDigit self digit w = Some (tt, w', tr) /\
    events tr
      = map (fun i => EDigitalWrite (nth i (m_pins self) 0)
                        (if Z.testbit (nth (Z.to_nat digit) m_digits 0)
                                      (7 - Z.of_nat i)
                         then HIGH else LOW))
            [0; 1; 2; 3; 4; 5; 6]%nat /\
    dot (snapshot self (levels w')) = dot (snapshot self (levels w)) /\
    selects (snapshot self (levels w')) = selects (snapshot self (levels w)) /\
    Forall (fun b => Z.testbit b 0 = false) m_digits.
Proof.
  intros Hw Hd.
  destruct (setDigit_performs self digit (nth (Z.to_nat digit) m_digits 0) Hw
              (proj1 Hd) (m_digits_defined digit Hd) w) as (w' & tr & E & O).
  exists w', tr. split; [exact E|].
  assert (Hs : snapshot self (levels w')
               = run_acts (setDigit_acts (nth (Z.to_nat digit) m_digits 0))
                          (snapshot self (levels w))).
  { rewrite (out_levels _ _ _ _ _ O), (out_events _ _ _ _ _ O).
    pose proof (setDigit_acts_in_range (nth (Z.to_nat digit) m_digits 0)) as Hr.
    destruct Hw as [Hl Hn]. rewrite <- Hl in Hr. now apply snapshot_replay. }
  rewrite Hs, (out_events _ _ _ _ _ O). on_lines self w Hw.
  split.
  { destruct (digit_cases digit Hd) as [?|[?|[?|[?|[?|[?|[?|[?|[?|?]]]]]]]]];
      subst digit; reflexivity. }
  split; [reflexivity|]. split; [reflexivity|].
  repeat (apply Forall_cons; [reflexivity|]); apply Forall_nil.
Qed.

Lemma setDigit_frame_witness :
  exists w' tr,
    setDigit d 5 power_on = Some (tt, w', tr) /\
    events tr
      = map (fun i => EDigitalWrite (nth i (m_pins d) 0)
                        (if Z.testbit (nth (Z.to_nat 5) m_digits 0)
                                      (7 - Z.of_nat i)
                         then HIGH else LOW))
            [0; 1; 2; 3; 4; 5; 6]%nat /\
    dot (snapshot d (levels w')) = dot (snapshot d (levels power_on)) /\
    selects (snapshot d (levels w')) = selects (snapshot d (levels power_on)) /\
    Forall (fun b => Z.testbit b 0 = false) m_digits.
Proof.
  apply (setDigit_frame d 5 power_on).
  - concrete_wiring.
  - lia.
Defined.

(* ================================================================== *)
(** ** The constructor *)

Lemma bind_array_get {A : Type} arr i v (k : Z -> M A) w :
  0 <= i -> nth_error arr (Z.to_nat i) = Some v ->
  (x <- array_get arr i ;; k x) w = k v w.
Proof.
  intros Hi Hv. unfold bind, array_get.
  destruct (Z.ltb_spec i 0); [lia|]. rewrite Hv.
  destruct (k v w) as [[[b w2] t2]|]; reflexivity.
Qed.

(** The loop of the constructor, from index [i] on: every pin of
    [m_pins[i..]] becomes an output at LOW, nothing else changes. *)
Lemma Display_init_run self :
  length (m_pins self) = 12%nat ->
  forall k fuel i w,
    i = 12 - Z.of_nat k -> 0 <= i -> (k < fuel)%nat ->
    exists w' tr,
      Display_init self fuel i w = Some (tt, w', tr) /\
      (forall p, levels w' p
                 = if existsb (Z.eqb p) (skipn (Z.to_nat i) (m_pins self))
                   then LOW else levels w p) /\
      (forall p, modes w' p
                 = if existsb (Z.eqb p) (skipn (Z.to_nat i) (m_pins self))
                   then OUTPUT else modes w p) /\
      events tr
        = flat_map (fun p => [EPinMode p OUTPUT; EDigitalWrite p LOW])
                   (skipn (Z.to_nat i) (m_pins self)) /\
      elapse w' = elapse w /\ rtc w' = rtc w.
Proof.
  intros Hl. induction k as [|k IH]; intros fuel i w Hi Hi0 Hf.
  - destruct fuel as [|fuel]; [lia|]. subst i. simpl Display_init.
    change (12 - Z.of_nat 0 <? Pins.COUNT) with false. cbv iota.
    exists w, []. split; [reflexivity|].
    rewrite skipn_all2 by (rewrite Hl; simpl; lia).
    repeat split; reflexivity.
  - destruct fuel as [|fuel]; [lia|]. simpl Display_init.
    destruct (Z.ltb_spec i Pins.COUNT) as [_|Hge]; [|unfold Pins.COUNT in Hge; lia].
    assert (Hlt : (Z.to_nat i < length (m_pins self))%nat) by (rewrite Hl; lia).
    destruct (nth_error (m_pins self) (Z.to_nat i)) as [p|] eqn:Ep;
      [|apply nth_error_None in Ep; lia].
    assert (Esk : skipn (Z.to_nat i) (m_pins self)
                  = p :: skipn (Z.to_nat (i + 1)) (m_pins self)).
    { replace (Z.to_nat (i + 1)) with (S (Z.to_nat i)) by lia.
      clear - Ep. revert Ep. generalize (Z.to_nat i) as n.
      induction (m_pins self) as [|x l IHl]; intros [|n] Ep; simpl in *;
        try discriminate.
      - now injection Ep as ->.
      - now apply IHl. }
    rewrite (bind_array_get _ _ p) by assumption.
    unfold bind at 1. unfold pinMode at 1.
    rewrite (bind_array_get _ _ p) by assumption.
    unfold bind at 1. unfold digitalWrite at 1.
    set (w1 := spend 0 (with_levels _ _)).
    destruct (IH fuel (i + 1) w1) as (w' & tr & E & Hlv & Hmd & Hev & Hel & Hrt);
      [lia|lia|lia|].
    rewrite E. eexists; eexists; split; [reflexivity|].
    rewrite Esk. simpl existsb. simpl flat_map.
    split; [|split; [|split; [|split; [exact Hel | exact Hrt]]]].
    + intros q. rewrite Hlv. subst w1; simpl. unfold upd.
      destruct (q =? p); simpl; [|reflexivity].
      destruct (existsb _ _); reflexivity.
    + intros q. rewrite Hmd. subst w1; simpl. unfold upd.
      destruct (q =? p); simpl; [|reflexivity].
      destruct (existsb _ _); reflexivity.
    + unfold events in *. simpl. rewrite Hev. reflexivity.
Qed.

Lemma existsb_eqb_In p l : In p l -> existsb (Z.eqb p) l = true.
Proof.
  intros H. apply existsb_exists. exists p. split; [exact H | apply Z.eqb_refl].
Qed.

(** C7, as the code has it.  The constructor makes each of the twelve
    pins it is given an output and drives every one of them LOW.  Segment
    and dot lines are thereby off; the four digit-select lines are LOW as
    well, which for these lines is the active level.  No other pin is
    touched. *)
Theorem constructor_all_outputs_low
        (pin_a pin_b pin_c pin_d pin_e pin_f pin_g pin_dp
         pin_d1 pin_d2 pin_d3 pin_d4 : Z) (w : world) :
  exists self w' tr,
    Display_new pin_a pin_b pin_c pin_d pin_e pin_f pin_g pin_dp
                pin_d1 pin_d2 pin_d3 pin_d4 w = Some (self, w', tr) /\
    m_pins self = [pin_a; pin_b; pin_c; pin_d; pin_e; pin_f; pin_g; pin_dp;
                   pin_d1; pin_d2; pin_d3; pin_d4] /\
    Forall (fun p => modes w' p = OUTPUT /\ levels w' p = LOW) (m_pins self) /\
    segments (snapshot self (levels w')) = [LOW; LOW; LOW; LOW; LOW; LOW; LOW] /\
    dot (snapshot self (levels w')) = LOW /\
    selects (snapshot self (levels w')) = [LOW; LOW; LOW; LOW] /\
    lit_positions (snapshot self (levels w')) = [0; 1; 2; 3] /\
    (forall p, ~ In p (m_pins self) ->
               modes w' p = modes w p /\ levels w' p = levels w p).
Proof.
  unfold Display_new.
  set (self := mkDisplay _).
  destruct (Display_init_run self eq_refl 12%nat 13%nat 0 w)
    as (w' & tr & E & Hlv & Hmd & _); [reflexivity | lia | lia |].
  change (Z.to_nat 0) with 0%nat in Hlv, Hmd. rewrite skipn_O in Hlv, Hmd.
  exists self, w', (tr ++ []). split.
  { unfold bind. rewrite E. reflexivity. }
  split; [reflexivity|].
  assert (Hall : Forall (fun p => modes w' p = OUTPUT /\ levels w' p = LOW)
                        (m_pins self)).
  { apply Forall_forall. intros p Hp.
    rewrite Hlv, Hmd, (existsb_eqb_In p _ Hp). split; reflexivity. }
  split; [exact Hall|].
  assert (Hsnap : snapshot self (levels w') = repeat LOW 12).
  { unfold snapshot. subst self. simpl m_pins in *.
    repeat match goal with
           | H : Forall _ (_ :: _) |- _ => inversion H as [|? ? [_ ?] ?]; clear H; subst
           end.
    simpl. repeat (f_equal; try assumption). }
  rewrite Hsnap. repeat (split; [reflexivity|]).
  intros p Hp. rewrite Hlv, Hmd.
  destruct (existsb (Z.eqb p) (m_pins self)) eqn:Ex; [|split; reflexivity].
  apply existsb_exists in Ex. destruct Ex as (q & Hq & Epq).
  apply Z.eqb_eq in Epq. subst q. contradiction.
Qed.

(** C7, as stated, fails: on a board whose latches are all HIGH, the
    constructor of [d] leaves the four digit-select lines LOW, their active
    level, not HIGH. *)
Lemma constructor_selects_not_high :
  static_init (with_levels (fun _ => HIGH) blank_world) <> None /\
  match static_init (with_levels (fun _ => HIGH) blank_world) with
  | Some (self, w', _) =>
      selects (snapshot self (levels w')) = [LOW; LOW; LOW; LOW] /\
      selects (snapshot self (levels w')) <> [HIGH; HIGH; HIGH; HIGH] /\
      lit_positions (snapshot self (levels w')) = [0; 1; 2; 3]
  | None => False
  end.
Proof.
  split; [vm_compute; discriminate|].
  vm_compute. repeat split; discriminate.
Qed.

(* ================================================================== *)
(** ** The frame of a call *)

Lemma frames_app self evs1 evs2 lv :
  frames self (evs1 ++ evs2) lv
  = frames self evs1 lv ++ frames self evs2 (replay evs1 lv).
Proof. unfold frames. rewrite dwells_app, map_app. reflexivity. Qed.

(** One call of [drawAt] shows one frame: the digit, at the position, with
    the dot as asked. *)
Lemma drawAt_frame self pos digit displayDot w :
  wired self -> 0 <= pos <= 3 -> 0 <= digit <= 9 ->
  exists w' tr,
    drawAt self pos digit displayDot w = Some (tt, w', tr) /\
    outcome self (drawAt_acts pos digit displayDot) w w' tr /\
    frames self (events tr) (levels w) = [mkFrame [pos] (Some digit) displayDot].
Proof.
  intros Hw Hp Hd.
  destruct (drawAt_lines self pos digit displayDot w Hw Hd)
    as (w' & tr & E & O & _ & Hh & _).
  exists w', tr. split; [exact E|]. split; [exact O|].
  unfold frames. rewrite <- (map_map (snapshot self) frame_of), Hh.
  on_lines self w Hw.
  destruct (position_cases pos Hp) as [?|[?|[?|?]]]; subst pos;
    destruct (digit_cases digit Hd) as [?|[?|[?|[?|[?|[?|[?|[?|[?|?]]]]]]]]];
    subst digit; destruct displayDot; reflexivity.
Qed.

Lemma d_wired : wired d.
Proof. concrete_wiring. Qed.

(* ================================================================== *)
(** ** The millisecond clock and the blinking dot *)



(* ================================================================== *)
(** ** The main loop *)

Lemma bind_run {A B : Type} (m : M A) (k : A -> M B) w a w1 t1 b w2 t2 :
  m w = Some (a, w1, t1) -> k a w1 = Some (b, w2, t2) ->
  (x <- m ;; k x) w = Some (b, w2, t1 ++ t2).
Proof. intros E1 E2. unfold bind. rewrite E1, E2. reflexivity. Qed.

Lemma reads_app t1 t2 : reads (t1 ++ t2) = reads t1 ++ reads t2.
Proof. unfold reads. apply flat_map_app. Qed.

Lemma display_reads self acts tr :
  events tr = map (realize self) acts -> reads tr = [].
Proof.
  revert acts. induction tr as [|[t e] tr IH]; intros acts H; [reflexivity|].
  destruct acts as [|a acts]; [discriminate|].
  simpl in H. injection H as He Htr.
  simpl. rewrite (IH acts Htr). destruct a; simpl in He; subst e; reflexivity.
Qed.

Lemma display_last_millis self acts acc :
  fold_left (fun acc e => match e with EMillis v => Some v | _ => acc end)
            (map (realize self) acts) acc = acc.
Proof.
  revert acc. induction acts as [|a acts IH]; intros acc; [reflexivity|].
  simpl. destruct a; simpl; apply IH.
Qed.

Lemma digits_of_field (x : Z) :
  0 <= x <= 99 ->
  Z.quot x 10 = x / 10 /\ Z.rem x 10 = x mod 10 /\
  0 <= x / 10 <= 9 /\ 0 <= x mod 10 <= 9.
Proof.
  intros H. rewrite Z.quot_div_nonneg, Z.rem_mod_nonneg by lia.
  split; [reflexivity|]. split; [reflexivity|].
  Z.to_euclidean_division_equations; lia.
Qed.

(** The refresh step, run from the state after the first [millis()]. *)
Lemma loop_refresh_run w :
  exists wR trR,
    loop_refresh (now w mod ULONG) (lastReadTimestamp w) (spend 0 w)
      = Some (tt, wR, trR) /\
    levels wR = levels w /\ elapse wR = elapse w /\ rtc wR = rtc w /\
    (advancing w -> now w <= now wR) /\
    (forall lv, replay (events trR) lv = lv) /\
    (forall lv, dwells (events trR) lv = []) /\
    refreshed w wR ((now w, EMillis (now w mod ULONG)) :: trR).
Proof.
  unfold loop_refresh.
  destruct (Z.geb_spec ((now w mod ULONG - lastReadTimestamp w) mod ULONG)
                       READ_TIME_PERIOD) as [Hge|Hlt].
  - eexists; eexists; split.
    { eapply bind_run; [reflexivity|]. cbv beta.
      eapply bind_run; [reflexivity|]. cbv beta.
      eapply bind_run; [reflexivity|]. cbv beta. reflexivity. }
    simpl. do 3 (split; [reflexivity|]).
    split.
    { intros Ha. pose proof (Ha (steps w)). pose proof (Ha (S (steps w))).
      pose proof (Ha (S (S (steps w)))). lia. }
    do 2 (split; [intros; reflexivity|]).
    eapply (renewed _ _ _ (now w + 0 + elapse w (steps w))
                    (now w + 0 + elapse w (steps w) + 0 + elapse w (S (steps w))));
      try reflexivity.
    + lia.
    + intros Ha. simpl.
      pose proof (Ha (steps w)). pose proof (Ha (S (steps w))).
      pose proof (Ha (S (S (steps w)))). lia.
  - exists (spend 0 w), []. split; [reflexivity|].
    simpl. do 3 (split; [reflexivity|]).
    split; [intros Ha; pose proof (Ha (steps w)); lia|].
    do 2 (split; [intros; reflexivity|]).
    apply kept; try reflexivity. lia.
Qed.

Lemma events_app (t1 t2 : trace) : events (t1 ++ t2) = events t1 ++ events t2.
Proof. unfold events. apply map_app. Qed.

Lemma last_millis_display self evs acts tr :
  events tr = map (realize self) acts ->
  last_millis (evs ++ events tr) = last_millis evs.
Proof.
  intros H. unfold last_millis. rewrite fold_left_app, H.
  apply display_last_millis.
Qed.

Lemma outcome_advancing self acts w w' tr :
  outcome self acts w w' tr -> advancing w -> advancing w'.
Proof.
  intros O Ha n. rewrite (out_elapse _ _ _ _ _ O). apply Ha.
Qed.

(** One turn of [loop]. *)
Lemma loop_run w :
  two_digits (currentDateTime w) -> (forall t, two_digits (rtc w t)) ->
  exists w' tr t,
    loop w = Some (tt, w', tr) /\
    elapse w' = elapse w /\ rtc w' = rtc w /\
    (advancing w -> now w <= now w') /\
    two_digits (currentDateTime w') /\
    last_millis (events tr) = Some t /\
    frames d (events tr) (levels w)
      = [mkFrame [0] (Some (hour (currentDateTime w') / 10)) false;
         mkFrame [1] (Some (hour (currentDateTime w') mod 10)) (blinkingDotState t);
         mkFrame [2] (Some (minute (currentDateTime w') / 10)) false;
         mkFrame [3] (Some (minute (currentDateTime w') mod 10)) false] /\
    refreshed w w' tr.
Proof.
  intros Hc Hrtc.
  destruct (loop_refresh_run w)
    as (wR & trR & ER & LR & XR & YR & NR & RR & DR & FR).
  assert (HcR : two_digits (currentDateTime wR)).
  { destruct FR as [_ _ Ec _|r s _ _ Ec _ _]; rewrite Ec; auto. }
  set (t3 := now wR mod ULONG).
  set (w2 := spend 0 wR).
  set (c := currentDateTime wR).
  destruct HcR as [Hh Hm]. fold c in Hh, Hm.
  destruct (digits_of_field (hour c) Hh) as (Qh & Rh & Hq & Hr).
  destruct (digits_of_field (minute c) Hm) as (Qm & Rm & Mq & Mr).
  destruct (drawAt_frame d 0 (hour c / 10) false w2 d_wired ltac:(lia) Hq)
    as (wa & tra & Ea & Oa & Fa).
  destruct (drawAt_frame d 1 (hour c mod 10) (blinkingDotState t3) wa d_wired
              ltac:(lia) Hr) as (wb & trb & Eb & Ob & Fb).
  destruct (drawAt_frame d 2 (minute c / 10) false wb d_wired ltac:(lia) Mq)
    as (wc & trc & Ec & Oc & Fc).
  destruct (drawAt_frame d 3 (minute c mod 10) false wc d_wired ltac:(lia) Mr)
    as (wd & trd & Ed & Od & Fd).
  assert (Ca : currentDateTime wa = c) by (rewrite (out_currentDateTime _ _ _ _ _ Oa); reflexivity).
  assert (Cb : currentDateTime wb = c) by (rewrite (out_currentDateTime _ _ _ _ _ Ob); exact Ca).
  assert (Cc : currentDateTime wc = c) by (rewrite (out_currentDateTime _ _ _ _ _ Oc); exact Cb).
  assert (Cd : currentDateTime wd = c) by (rewrite (out_currentDateTime _ _ _ _ _ Od); exact Cc).
  exists wd,
    ((now w, EMillis (now w mod ULONG)) ::
     trR ++ (now wR, EMillis t3) :: tra ++ trb ++ trc ++ trd), t3.
  split.
  { unfold loop.
    eapply (bind_run _ _ _ _ _ [_]); [reflexivity|]. cbv beta.
    eapply (bind_run _ _ _ _ _ []); [reflexivity|]. cbv beta.
    eapply (bind_run _ _ _ _ _ trR); [exact ER|]. cbv beta.
    eapply (bind_run _ _ _ _ _ [_]); [reflexivity|]. cbv beta zeta.
    eapply (bind_run _ _ _ _ _ []); [reflexivity|]. cbv beta.
    eapply (bind_run _ _ _ _ _ tra);
      [change (currentDateTime (spend 0 wR)) with c; rewrite Qh; exact Ea|]. cbv beta.
    eapply (bind_run _ _ _ _ _ []); [reflexivity|]. cbv beta.
    eapply (bind_run _ _ _ _ _ trb); [rewrite Ca, Rh; exact Eb|]. cbv beta.
    eapply (bind_run _ _ _ _ _ []); [reflexivity|]. cbv beta.
    eapply (bind_run _ _ _ _ _ trc); [rewrite Cb, Qm; exact Ec|]. cbv beta.
    eapply (bind_run _ _ _ _ _ []); [reflexivity|]. cbv beta.
    rewrite Cc, Rm. exact Ed. }
  rewrite Cd.
  assert (Xd : elapse wd = elapse w).
  { rewrite (out_elapse _ _ _ _ _ Od), (out_elapse _ _ _ _ _ Oc),
            (out_elapse _ _ _ _ _ Ob), (out_elapse _ _ _ _ _ Oa). exact XR. }
  assert (Nd : advancing w -> now wR <= now wd).
  { intros Ha.
    assert (A2 : advancing w2) by (intros n; simpl; rewrite XR; apply Ha).
    pose proof (outcome_advancing _ _ _ _ _ Oa A2) as Aa.
    pose proof (outcome_advancing _ _ _ _ _ Ob Aa) as Ab.
    pose proof (outcome_advancing _ _ _ _ _ Oc Ab) as Ac.
    pose proof (out_now _ _ _ _ _ Oa A2). pose proof (out_now _ _ _ _ _ Ob Aa).
    pose proof (out_now _ _ _ _ _ Oc Ab). pose proof (out_now _ _ _ _ _ Od Ac).
    assert (now wR <= now w2); [|lia].
    pose proof (A2 (steps wR)) as Hs. simpl in Hs |- *. lia. }
  split; [exact Xd|].
  split.
  { rewrite (out_rtc _ _ _ _ _ Od), (out_rtc _ _ _ _ _ Oc),
            (out_rtc _ _ _ _ _ Ob), (out_rtc _ _ _ _ _ Oa). exact YR. }
  split; [intros Ha; specialize (NR Ha); specialize (Nd Ha); lia|].
  split; [split; assumption|].
  assert (Hev : events ((now w, EMillis (now w mod ULONG))
                        :: trR ++ (now wR, EMillis t3) :: tra ++ trb ++ trc ++ trd)
                = ((((EMillis (now w mod ULONG) :: events trR ++ [EMillis t3])
                     ++ events tra) ++ events trb) ++ events trc) ++ events trd).
  { change ((now w, EMillis (now w mod ULONG))
            :: trR ++ (now wR, EMillis t3) :: tra ++ trb ++ trc ++ trd)
      with ([(now w, EMillis (now w mod ULONG))]
            ++ trR ++ [(now wR, EMillis t3)] ++ tra ++ trb ++ trc ++ trd).
    rewrite !events_app. simpl. rewrite <- !app_assoc. reflexivity. }
  rewrite Hev.
  split.
  { rewrite (last_millis_display d _ _ trd (out_events _ _ _ _ _ Od)),
            (last_millis_display d _ _ trc (out_events _ _ _ _ _ Oc)),
            (last_millis_display d _ _ trb (out_events _ _ _ _ _ Ob)),
            (last_millis_display d _ _ tra (out_events _ _ _ _ _ Oa)).
    unfold last_millis. simpl. rewrite fold_left_app. reflexivity. }
  split.
  { assert (Hhead : forall lv, replay (EMillis (now w mod ULONG)
                                         :: events trR ++ [EMillis t3]) lv = lv).
    { intros lv. simpl. rewrite replay_app, RR. reflexivity. }
    assert (La : levels wa
                 = replay ((EMillis (now w mod ULONG) :: events trR ++ [EMillis t3])
                           ++ events tra) (levels w)).
    { rewrite replay_app, Hhead, (out_levels _ _ _ _ _ Oa). simpl. now rewrite LR. }
    assert (Lb : levels wb
                 = replay (((EMillis (now w mod ULONG) :: events trR ++ [EMillis t3])
                            ++ events tra) ++ events trb) (levels w)).
    { rewrite replay_app, <- La. apply (out_levels _ _ _ _ _ Ob). }
    assert (Lc : levels wc
                 = replay ((((EMillis (now w mod ULONG) :: events trR ++ [EMillis t3])
                             ++ events tra) ++ events trb) ++ events trc) (levels w)).
    { rewrite replay_app, <- Lb. apply (out_levels _ _ _ _ _ Oc). }
    rewrite frames_app, <- Lc, Fd.
    rewrite frames_app, <- Lb, Fc.
    rewrite frames_app, <- La, Fb.
    rewrite frames_app, Hhead.
    replace (levels w) with (levels w2) by (simpl; exact LR).
    rewrite Fa.
    unfold frames. simpl. rewrite dwells_app, DR. reflexivity. }
  assert (Hreads : reads ((now w, EMillis (now w mod ULONG))
                          :: trR ++ (now wR, EMillis t3) :: tra ++ trb ++ trc ++ trd)
                   = reads ((now w, EMillis (now w mod ULONG)) :: trR)).
  { change ((now w, EMillis (now w mod ULONG))
            :: trR ++ (now wR, EMillis t3) :: tra ++ trb ++ trc ++ trd)
      with (((now w, EMillis (now w mod ULONG)) :: trR)
            ++ [(now wR, EMillis t3)] ++ tra ++ trb ++ trc ++ trd).
    rewrite !reads_app.
    rewrite (display_reads d _ tra (out_events _ _ _ _ _ Oa)),
            (display_reads d _ trb (out_events _ _ _ _ _ Ob)),
            (display_reads d _ trc (out_events _ _ _ _ _ Oc)),
            (display_reads d _ trd (out_events _ _ _ _ _ Od)).
    simpl. rewrite app_nil_r. reflexivity. }
  assert (Ld : lastReadTimestamp wd = lastReadTimestamp wR).
  { rewrite (out_lastReadTimestamp _ _ _ _ _ Od), (out_lastReadTimestamp _ _ _ _ _ Oc),
            (out_lastReadTimestamp _ _ _ _ _ Ob), (out_lastReadTimestamp _ _ _ _ _ Oa).
    reflexivity. }
  destruct FR as [Hlt Hr0 Hc0 Hl0 | r s Hge Hr0 Hc0 Hl0 Ht0].
  - apply kept; [exact Hlt | | | ].
    + rewrite Hreads. exact Hr0.
    + rewrite Cd. exact Hc0.
    + congruence.
  - apply (renewed _ _ _ r s); [exact Hge | | | | ].
    + rewrite Hreads. exact Hr0.
    + rewrite Cd. exact Hc0.
    + congruence.
    + intros Ha. specialize (Ht0 Ha). specialize (Nd Ha). lia.
Qed.

(** C6.  One turn of [loop] shows four frames, positions 0, 1, 2, 3 in
    that order, with the tens and units of the cached hour and then of the
    cached minute; the dot is on at position 1 exactly when the blink phase
    of the last [millis()] reading is, and off at the other positions.  With
    07:05 cached the digits are 0, 7, 0, 5; with 23:59 they are 2, 3, 5, 9. *)
Theorem loop_sweep w :
  two_digits (currentDateTime w) -> (forall t, two_digits (rtc w t)) ->
  exists w' tr t,
    loop w = Some (tt, w', tr) /\
    last_millis (events tr) = Some t /\
    frames d (events tr) (levels w)
      = [mkFrame [0] (Some (hour (currentDateTime w') / 10)) false;
         mkFrame [1] (Some (hour (currentDateTime w') mod 10)) (blinkingDotState t);
         mkFrame [2] (Some (minute (currentDateTime w') / 10)) false;
         mkFrame [3] (Some (minute (currentDateTime w') mod 10)) false] /\
    (currentDateTime w' = mkDateTime 7 5 ->
     map glyph (frames d (events tr) (levels w))
       = [Some 0; Some 7; Some 0; Some 5]) /\
    (currentDateTime w' = mkDateTime 23 59 ->
     map glyph (frames d (events tr) (levels w))
       = [Some 2; Some 3; Some 5; Some 9]).
Proof.
  intros Hc Hrtc.
  destruct (loop_run w Hc Hrtc) as (w' & tr & t & E & _ & _ & _ & _ & Hm & Hf & _).
  exists w', tr, t. split; [exact E|]. split; [exact Hm|]. split; [exact Hf|].
  rewrite Hf. split; intros ->; reflexivity.
Qed.

Lemma loop_sweep_witness :
  exists w' tr t,
    loop (world_at 7 5 0) = Some (tt, w', tr) /\
    last_millis (events tr) = Some t /\
    frames d (events tr) (levels (world_at 7 5 0))
      = [mkFrame [0] (Some (hour (currentDateTime w') / 10)) false;
         mkFrame [1] (Some (hour (currentDateTime w') mod 10)) (blinkingDotState t);
         mkFrame [2] (Some (minute (currentDateTime w') / 10)) false;
         mkFrame [3] (Some (minute (currentDateTime w') mod 10)) false] /\
    (currentDateTime w' = mkDateTime 7 5 ->
     map glyph (frames d (events tr) (levels (world_at 7 5 0)))
       = [Some 0; Some 7; Some 0; Some 5]) /\
    (currentDateTime w' = mkDateTime 23 59 ->
     map glyph (frames d (events tr) (levels (world_at 7 5 0)))
       = [Some 2; Some 3; Some 5; Some 9]).
Proof.
  apply (loop_sweep (world_at 7 5 0)).
  - unfold two_digits; simpl; lia.
  - intros t; unfold two_digits; simpl; lia.
Defined.

(** The two sweeps of the specification, run. *)
Lemma sweep_0705 :
  frames d (requests loop (world_at 7 5 1)) (levels (world_at 7 5 1))
  = [mkFrame [0] (Some 0) false; mkFrame [1] (Some 7) false;
     mkFrame [2] (Some 0) false; mkFrame [3] (Some 5) false].
Proof. vm_compute. reflexivity. Qed.

Lemma sweep_2359 :
  map glyph (frames d (requests loop (world_at 23 59 1)) (levels (world_at 23 59 1)))
  = [Some 2; Some 3; Some 5; Some 9].
Proof. vm_compute. reflexivity. Qed.

(* ================================================================== *)
(** ** The cadence of clock reads *)

Lemma far_snoc l x :
  StronglySorted far l -> Forall (fun a => far a x) l ->
  StronglySorted far (l ++ [x]).
Proof.
  induction 1 as [|a l Hl IH Ha]; intros Hx; simpl.
  - repeat constructor.
  - inversion Hx as [|? ? Hax Hlx]; subst. constructor.
    + now apply IH.
    + apply Forall_app. split; [exact Ha | now constructor].
Qed.

Lemma far_window l :
  StronglySorted far l ->
  forall a, (length (filter (in_window a) l) <= 1)%nat.
Proof.
  induction 1 as [|x l Hl IH Hx]; intros a; simpl; [lia|].
  destruct (in_window a x) eqn:Ex; [|apply IH].
  assert (Hnone : filter (in_window a) l = []).
  { clear IH Hl. induction l as [|y l IHl]; [reflexivity|].
    inversion Hx as [|? ? Hxy Hrest]; subst. simpl.
    unfold in_window, far in *.
    destruct (Z.leb_spec a x), (Z.ltb_spec x (a + READ_TIME_PERIOD));
      try discriminate.
    destruct (Z.leb_spec a y), (Z.ltb_spec y (a + READ_TIME_PERIOD)); simpl;
      try (now apply IHl). lia. }
  simpl. rewrite Hnone. simpl. lia.
Qed.

(** When the [unsigned long] difference of two time stamps reaches the
    period, so has the true time between them. *)
Lemma stamp_gap (a b : Z) :
  b <= a -> READ_TIME_PERIOD <= (a mod ULONG - b mod ULONG) mod ULONG ->
  b + READ_TIME_PERIOD <= a.
Proof.
  intros Hba H. rewrite <- Zminus_mod in H.
  destruct (Z_lt_le_dec (a - b) READ_TIME_PERIOD) as [Hlt|Hge]; [|lia].
  rewrite Z.mod_small in H; [lia|].
  unfold READ_TIME_PERIOD, ULONG in *. simpl. lia.
Qed.

Lemma quiet_reads (tr : trace) :
  Forall (fun e => forall v, e <> ERtcGetDateTime v) (events tr) -> reads tr = [].
Proof.
  induction tr as [|[t e] tr IH]; intros H; [reflexivity|].
  simpl in H. inversion H as [|? ? He Htr]; subst.
  simpl. rewrite (IH Htr). destruct e; try reflexivity.
  exfalso. exact (He result eq_refl).
Qed.

(** The constructor of [d]: it returns [d], reads no clock and leaves the
    environment as it was. *)
Lemma static_init_run w :
  exists w' tr,
    static_init w = Some (d, w', tr) /\
    reads tr = [] /\ elapse w' = elapse w /\ rtc w' = rtc w.
Proof.
  unfold static_init, Display_new. fold d.
  destruct (Display_init_run d eq_refl 12%nat 13%nat 0 w)
    as (w' & tr & E & _ & _ & Hev & Hel & Hrt); [reflexivity | lia | lia |].
  exists w', (tr ++ []). split.
  { unfold bind. rewrite E. reflexivity. }
  rewrite app_nil_r. split; [|split; assumption].
  apply quiet_reads. rewrite Hev. simpl.
  repeat (apply Forall_cons; [discriminate|]). apply Forall_nil.
Qed.

(** [setup]: one read of the clock at time [r], cached, and a time stamp
    taken at time [s]. *)
Lemma setup_run w :
  exists w' tr r s,
    setup w = Some (tt, w', tr) /\
    reads tr = [(r, rtc w r)] /\
    currentDateTime w' = rtc w r /\
    lastReadTimestamp w' = s mod ULONG /\
    elapse w' = elapse w /\ rtc w' = rtc w /\
    (advancing w -> r <= s /\ s <= now w').
Proof.
  eexists; eexists;
    exists (now w + 0 + elapse w (steps w) + 0 + elapse w (S (steps w)));
    exists (now w + 0 + elapse w (steps w) + 0 + elapse w (S (steps w))
            + 0 + elapse w (S (S (steps w)))).
  split.
  { unfold setup.
    eapply bind_run; [reflexivity|]. cbv beta.
    eapply bind_run; [reflexivity|]. cbv beta.
    eapply bind_run; [reflexivity|]. cbv beta.
    eapply bind_run; [reflexivity|]. cbv beta.
    eapply bind_run; [reflexivity|]. cbv beta. reflexivity. }
  simpl. do 5 (split; [reflexivity|]).
  intros Ha. pose proof (Ha (S (S (steps w)))). pose proof (Ha (S (S (S (steps w))))).
  lia.
Qed.

Lemma loops_run n :
  forall w prev Ts,
    advancing w -> (forall t, two_digits (rtc w t)) ->
    cached w prev Ts ->
    exists w' tr Ts',
      loops n w = Some (tt, w', tr) /\
      cached w' (prev ++ reads tr) Ts' /\ rtc w' = rtc w.
Proof.
  induction n as [|n IH]; intros w prev Ts Ha Hrtc Hc.
  - exists w, [], Ts. split; [reflexivity|]. simpl. rewrite app_nil_r. auto.
  - assert (Hd : two_digits (currentDateTime w)).
    { destruct (ca_value _ _ _ Hc) as (older & r & Ep).
      pose proof (ca_true _ _ _ Hc) as Ht. rewrite Ep in Ht.
      apply Forall_app in Ht. destruct Ht as [_ Ht].
      inversion Ht as [|? ? Hv _]; subst. simpl in Hv. rewrite Hv. apply Hrtc. }
    destruct (loop_run w Hd Hrtc)
      as (w1 & tr1 & t & E1 & X1 & Y1 & N1 & _ & _ & _ & R1).
    assert (Ha1 : advancing w1) by (intros k; rewrite X1; apply Ha).
    assert (Hrtc1 : forall u, two_digits (rtc w1 u)) by (intros u; rewrite Y1; apply Hrtc).
    specialize (N1 Ha).
    assert (Hc1 : exists Ts1, cached w1 (prev ++ reads tr1) Ts1).
    { destruct Hc as [Hst Hpast Hbef Hfar Hval Htrue].
      destruct R1 as [Hlt Hr Hcur Hlast | r s Hge Hr Hcur Hlast Htime].
      - exists Ts. rewrite Hr, app_nil_r.
        constructor; try assumption; try congruence; try lia.
        + rewrite Hcur. exact Hval.
        + rewrite Y1. exact Htrue.
      - exists s. rewrite Hr. specialize (Htime Ha).
        rewrite Hst in Hge.
        assert (Hgap : Ts + READ_TIME_PERIOD <= now w) by (now apply stamp_gap).
        constructor.
        + exact Hlast.
        + lia.
        + apply Forall_app. split.
          * eapply Forall_impl; [|exact Hbef]. simpl. intros x Hx.
            unfold READ_TIME_PERIOD in Hgap. lia.
          * repeat constructor. simpl. lia.
        + rewrite map_app. simpl. apply far_snoc; [exact Hfar|].
          apply Forall_map. eapply Forall_impl; [|exact Hbef].
          simpl. intros x Hx. unfold far. lia.
        + exists prev, r. rewrite Hcur. reflexivity.
        + rewrite Y1. apply Forall_app. split; [exact Htrue|].
          repeat constructor. }
    destruct Hc1 as (Ts1 & Hc1).
    destruct (IH w1 _ Ts1 Ha1 Hrtc1 Hc1) as (w' & tr & Ts' & E & Hc' & Y').
    exists w', (tr1 ++ tr), Ts'. split.
    { simpl loops. eapply bind_run; [exact E1 | exact E]. }
    rewrite reads_app, app_assoc. split; [exact Hc'|]. congruence.
Qed.

(** C8.  In every run of the sketch (the constructor, [setup], then any
    number of turns of [loop]) on a clock that never runs backwards, any two
    calls of [clock.getDateTime] are at least [READ_TIME_PERIOD] ms apart, so
    no window of that length holds two; and when [loop] returns the cache is
    what the latest call returned, the value the time source had at that
    moment, however it has changed since. *)
Theorem time_read_cadence n w :
  advancing w -> (forall t, two_digits (rtc w t)) ->
  exists w' tr,
    sketch n w = Some (tt, w', tr) /\
    StronglySorted far (map fst (reads tr)) /\
    (forall a, (length (filter (in_window a) (map fst (reads tr))) <= 1)%nat) /\
    (exists older r,
       reads tr = older ++ [(r, currentDateTime w')] /\
       currentDateTime w' = rtc w r).
Proof.
  intros Ha Hrtc.
  destruct (static_init_run w) as (w0 & tr0 & E0 & R0 & X0 & Y0).
  destruct (setup_run w0) as (w1 & tr1 & r & s & E1 & R1 & Cu & L1 & X1 & Y1 & T1).
  assert (Ha0 : advancing w0) by (intros k; rewrite X0; apply Ha).
  assert (Ha1 : advancing w1) by (intros k; rewrite X1; apply Ha0).
  assert (Hrtc1 : forall u, two_digits (rtc w1 u)).
  { intros u. rewrite Y1, Y0. apply Hrtc. }
  specialize (T1 Ha0).
  assert (Hc1 : cached w1 [(r, rtc w0 r)] s).
  { constructor.
    - exact L1.
    - lia.
    - repeat constructor. simpl. lia.
    - repeat constructor.
    - exists [], r. rewrite Cu. reflexivity.
    - repeat constructor. simpl. now rewrite Y1. }
  destruct (loops_run n w1 _ s Ha1 Hrtc1 Hc1) as (w' & tr & Ts' & E & Hc' & Y').
  exists w', (tr0 ++ tr1 ++ tr). split.
  { unfold sketch. eapply bind_run; [exact E0|]. cbv beta.
    eapply bind_run; [exact E1 | exact E]. }
  rewrite !reads_app, R0, R1. simpl app.
  change ((r, rtc w0 r) :: reads tr) with ([(r, rtc w0 r)] ++ reads tr).
  pose proof (ca_far _ _ _ Hc') as Hfar.
  split; [exact Hfar|]. split; [now apply far_window|].
  destruct (ca_value _ _ _ Hc') as (older & r' & Ep).
  exists older, r'. split; [exact Ep|].
  pose proof (ca_true _ _ _ Hc') as Ht. rewrite Ep in Ht.
  apply Forall_app in Ht. destruct Ht as [_ Ht].
  inversion Ht as [|? ? Hv _]; subst. simpl in Hv.
  rewrite Hv, Y', Y1, Y0. reflexivity.
Qed.

Lemma time_read_cadence_witness :
  exists w' tr,
    sketch 3 racing_world = Some (tt, w', tr) /\
    StronglySorted far (map fst (reads tr)) /\
    (forall a, (length (filter (in_window a) (map fst (reads tr))) <= 1)%nat) /\
    (exists older r,
       reads tr = older ++ [(r, currentDateTime w')] /\
       currentDateTime w' = rtc racing_world r).
Proof.
  apply (time_read_cadence 3 racing_world).
  - intros n. simpl. lia.
  - intros t. unfold two_digits. simpl.
    pose proof (Z.mod_pos_bound (t / 60) 24). pose proof (Z.mod_pos_bound t 60). lia.
Defined.

(** Three turns of [loop] on that board: the clock is read in [setup] and
    once more, over a second later, although it has changed all along. *)
Lemma racing_reads :
  reads (transcript (sketch 3) racing_world)
  = [(260, mkDateTime 4 20); (1698, mkDateTime 4 18)].
Proof. vm_compute. reflexivity. Qed.

(* ================================================================== *)
(** ** The parts of [drawAt] on their own *)

Lemma performs_lines self m acts w :
  wired self -> Forall (in_range 12) acts -> performs self m acts ->
  exists w' tr,
    m w = Some (tt, w', tr) /\
    outcome self acts w w' tr /\
    snapshot self (levels w') = run_acts acts (snapshot self (levels w)).
Proof.
  intros [Hl Hn] Hr Hp. destruct (Hp w) as (w' & tr & E & O).
  exists w', tr. split; [exact E|]. split; [exact O|].
  rewrite (out_levels _ _ _ _ _ O), (out_events _ _ _ _ _ O).
  apply snapshot_replay; [exact Hn|]. now rewrite Hl.
Qed.

(** X1.  [clean] blanks the display from any state: afterwards all four
    digit-select lines are HIGH, and the segment lines and the dot line are
    as they were. *)
Theorem clean_blanks self w :
  wired self ->
  exists w' tr,
    clean self w = Some (tt, w', tr) /\
    selects (snapshot self (levels w')) = [HIGH; HIGH; HIGH; HIGH] /\
    lit_positions (snapshot self (levels w')) = [] /\
    segments (snapshot self (levels w')) = segments (snapshot self (levels w)) /\
    dot (snapshot self (levels w')) = dot (snapshot self (levels w)).
Proof.
  intros Hw.
  destruct (performs_lines self (clean self) clean_acts w Hw)
    as (w' & tr & E & _ & Hs).
  { unfold clean_acts. repeat (apply Forall_cons; [simpl; lia|]). apply Forall_nil. }
  { now apply clean_performs. }
  exists w', tr. split; [exact E|]. rewrite Hs. on_lines self w Hw.
  repeat split; reflexivity.
Qed.

Lemma clean_blanks_witness :
  exists w' tr,
    clean d power_on = Some (tt, w', tr) /\
    selects (snapshot d (levels w')) = [HIGH; HIGH; HIGH; HIGH] /\
    lit_positions (snapshot d (levels w')) = [] /\
    segments (snapshot d (levels w')) = segments (snapshot d (levels power_on)) /\
    dot (snapshot d (levels w')) = dot (snapshot d (levels power_on)).
Proof.
  apply (clean_blanks d power_on). concrete_wiring.
Defined.

(** X2.  [setPosition] decides the four digit-select lines by [pos] alone,
    whatever they were: the line of [pos] is LOW and the others HIGH when
    [pos] is in 0..3, all four are HIGH otherwise.  The segment lines and the
    dot line are as they were. *)
Theorem setPosition_selects self pos w :
  wired self ->
  exists w' tr,
    setPosition self pos w = Some (tt, w', tr) /\
    selects (snapshot self (levels w'))
      = map (fun k => if k =? pos then LOW else HIGH) [0; 1; 2; 3] /\
    lit_positions (snapshot self (levels w'))
      = (if (0 <=? pos) && (pos <=? 3) then [pos] else []) /\
    segments (snapshot self (levels w')) = segments (snapshot self (levels w)) /\
    dot (snapshot self (levels w')) = dot (snapshot self (levels w)).
Proof.
  intros Hw.
  destruct (performs_lines self (setPosition self pos) (setPosition_acts pos) w Hw)
    as (w' & tr & E & _ & Hs).
  { unfold setPosition_acts. repeat (apply Forall_cons; [simpl; lia|]). apply Forall_nil. }
  { now apply setPosition_performs. }
  exists w', tr. split; [exact E|]. rewrite Hs. on_lines self w Hw.
  destruct (position_split pos) as [?|[?|[?|[?|Hout]]]];
    [subst pos | subst pos | subst pos | subst pos | ].
  1-4: repeat split; reflexivity.
  rewrite (setPosition_acts_outside pos Hout).
  assert (Hb : (0 <=? pos) && (pos <=? 3) = false).
  { destruct (Z.leb_spec 0 pos), (Z.leb_spec pos 3); simpl; try reflexivity; lia. }
  rewrite Hb. cbn [map].
  rewrite (proj2 (Z.eqb_neq 0 pos)), (proj2 (Z.eqb_neq 1 pos)),
          (proj2 (Z.eqb_neq 2 pos)), (proj2 (Z.eqb_neq 3 pos)) by lia.
  repeat split; reflexivity.
Qed.

Lemma setPosition_selects_witness :
  exists w' tr,
    setPosition d 2 power_on = Some (tt, w', tr) /\
    selects (snapshot d (levels w'))
      = map (fun k => if k =? 2 then LOW else HIGH) [0; 1; 2; 3] /\
    lit_positions (snapshot d (levels w'))
      = (if (0 <=? 2) && (2 <=? 3) then [2] else []) /\
    segments (snapshot d (levels w')) = segments (snapshot d (levels power_on)) /\
    dot (snapshot d (levels w')) = dot (snapshot d (levels power_on)).
Proof.
  apply (setPosition_selects d 2 power_on). concrete_wiring.
Defined.

(* ================================================================== *)
(** ** [drawAt] as a whole *)

(** X3.  The twelve display lines after [drawAt] depend on its arguments
    only, not on the state it was called in: a call wipes out whatever the
    previous one showed. *)
Theorem drawAt_overwrites self pos digit displayDot w1 w2 :
  wired self -> 0 <= digit <= 9 ->
  exists w1' tr1 w2' tr2,
    drawAt self pos digit displayDot w1 = Some (tt, w1', tr1) /\
    drawAt self pos digit displayDot w2 = Some (tt, w2', tr2) /\
    snapshot self (levels w1') = snapshot self (levels w2').
Proof.
  intros Hw Hd.
  destruct (drawAt_lines self pos digit displayDot w1 Hw Hd)
    as (w1' & tr1 & E1 & _ & Hs1 & _ & _).
  destruct (drawAt_lines self pos digit displayDot w2 Hw Hd)
    as (w2' & tr2 & E2 & _ & Hs2 & _ & _).
  exists w1', tr1, w2', tr2. split; [exact E1|]. split; [exact E2|].
  rewrite Hs1, Hs2.
  destruct (wired_snapshot self (levels w1) Hw)
    as (a0&a1&a2&a3&a4&a5&a6&a7&a8&a9&a10&a11&Ha).
  destruct (wired_snapshot self (levels w2) Hw)
    as (b0&b1&b2&b3&b4&b5&b6&b7&b8&b9&b10&b11&Hb).
  rewrite Ha, Hb. reflexivity.
Qed.

Lemma drawAt_overwrites_witness :
  exists w1' tr1 w2' tr2,
    drawAt d 1 6 true blank_world = Some (tt, w1', tr1) /\
    drawAt d 1 6 true after_first_draw = Some (tt, w2', tr2) /\
    snapshot d (levels w1') = snapshot d (levels w2').
Proof.
  apply (drawAt_overwrites d 1 6 true blank_world after_first_draw).
  - concrete_wiring.
  - lia.
Defined.

Lemma replay_elsewhere evs p :
  Forall (fun e => match e with EDigitalWrite q _ => q <> p | _ => True end) evs ->
  forall lv, replay evs lv p = lv p.
Proof.
  induction 1 as [|e evs He _ IH]; intros lv; simpl; [reflexivity|].
  rewrite IH. destruct e; simpl; try reflexivity.
  unfold upd. destruct (Z.eqb_spec p pin); [congruence | reflexivity].
Qed.

(** X4.  [drawAt] asks the board for sixteen writes to pins of [m_pins] and
    then one [delay] of [DIGIT_DISPLAY_DELAY], nothing else; no pin outside
    [m_pins] changes level, no pin changes direction, and the sketch's cached
    time and time stamp are untouched. *)
Theorem drawAt_footprint self pos digit displayDot w :
  wired self -> 0 <= digit <= 9 ->
  exists w' tr writes,
    drawAt self pos digit displayDot w = Some (tt, w', tr) /\
    events tr = writes ++ [EDelay DIGIT_DISPLAY_DELAY] /\
    length writes = 16%nat /\
    Forall (fun e => exists p v, e = EDigitalWrite p v /\ In p (m_pins self)) writes /\
    (forall p, ~ In p (m_pins self) -> levels w' p = levels w p) /\
    modes w' = modes w /\
    currentDateTime w' = currentDateTime w /\
    lastReadTimestamp w' = lastReadTimestamp w.
Proof.
  intros Hw Hd.
  destruct (drawAt_performs self pos digit displayDot Hw Hd w) as (w' & tr & E & O).
  destruct O as [Oe Ol Om Oc Or _ _ _].
  assert (Hin : forall i, (i < 12)%nat -> In (nth i (m_pins self) 0) (m_pins self)).
  { intros i Hi. apply nth_In. destruct Hw as [Hl _]. rewrite Hl. exact Hi. }
  assert (Hwr : Forall (fun e => exists p v, e = EDigitalWrite p v /\ In p (m_pins self))
                  (map (realize self)
                       (clean_acts ++ setDigit_acts (nth (Z.to_nat digit) m_digits 0)
                        ++ [Put 7 (if displayDot then HIGH else LOW)]
                        ++ setPosition_acts pos))).
  { simpl. repeat (apply Forall_cons;
                   [eexists; eexists; split; [reflexivity | apply Hin; lia]|]).
    apply Forall_nil. }
  exists w', tr, (map (realize self)
                    (clean_acts ++ setDigit_acts (nth (Z.to_nat digit) m_digits 0)
                     ++ [Put 7 (if displayDot then HIGH else LOW)]
                     ++ setPosition_acts pos)).
  split; [exact E|]. split; [rewrite Oe; reflexivity|].
  split; [reflexivity|]. split; [exact Hwr|].
  split; [|repeat split; assumption].
  intros p Hp. rewrite Ol, Oe. apply replay_elsewhere.
  change (map (realize self) (drawAt_acts pos digit displayDot))
    with (map (realize self)
              (clean_acts ++ setDigit_acts (nth (Z.to_nat digit) m_digits 0)
               ++ [Put 7 (if displayDot then HIGH else LOW)]
               ++ setPosition_acts pos) ++ [EDelay DIGIT_DISPLAY_DELAY]).
  apply Forall_app. split; [|repeat constructor].
  eapply Forall_impl; [|exact Hwr]. simpl.
  intros e (q & v & -> & Hq). intros ->. contradiction.
Qed.

Lemma drawAt_footprint_witness :
  exists w' tr writes,
    drawAt d 0 2 false power_on = Some (tt, w', tr) /\
    events tr = writes ++ [EDelay DIGIT_DISPLAY_DELAY] /\
    length writes = 16%nat /\
    Forall (fun e => exists p v, e = EDigitalWrite p v /\ In p (m_pins d)) writes /\
    (forall p, ~ In p (m_pins d) -> levels w' p = levels power_on p) /\
    modes w' = modes power_on /\
    currentDateTime w' = currentDateTime power_on /\
    lastReadTimestamp w' = lastReadTimestamp power_on.
Proof.
  apply (drawAt_footprint d 0 2 false power_on).
  - concrete_wiring.
  - lia.
Defined.

(** X5.  The ten segment configurations are pairwise distinct, so what
    [drawAt] leaves on the segment lines identifies the digit it was given:
    decoding the lines gives that digit back. *)
Theorem drawAt_glyph_round_trip self pos digit displayDot w :
  wired self -> 0 <= digit <= 9 ->
  exists w' tr,
    drawAt self pos digit displayDot w = Some (tt, w', tr) /\
    digit_shown (segments (snapshot self (levels w'))) = Some digit /\
    (forall other, 0 <= other <= 9 ->
       pattern (nth (Z.to_nat other) m_digits 0)
       = segments (snapshot self (levels w')) -> other = digit).
Proof.
  intros Hw Hd.
  destruct (drawAt_lines self pos digit displayDot w Hw Hd)
    as (w' & tr & E & _ & Hs & _ & _).
  exists w', tr. split; [exact E|].
  rewrite Hs. on_lines self w Hw.
  split.
  - destruct (digit_cases digit Hd) as [?|[?|[?|[?|[?|[?|[?|[?|[?|?]]]]]]]]];
      subst digit; reflexivity.
  - intros other Ho.
    destruct (digit_cases digit Hd) as [?|[?|[?|[?|[?|[?|[?|[?|[?|?]]]]]]]]];
      subst digit;
      destruct (digit_cases other Ho) as [?|[?|[?|[?|[?|[?|[?|[?|[?|?]]]]]]]]];
      subst other; intros H; try reflexivity; discriminate H.
Qed.

Lemma drawAt_glyph_round_trip_witness :
  exists w' tr,
    drawAt d 3 9 false power_on = Some (tt, w', tr) /\
    digit_shown (segments (snapshot d (levels w'))) = Some 9 /\
    (forall other, 0 <= other <= 9 ->
       pattern (nth (Z.to_nat other) m_digits 0)
       = segments (snapshot d (levels w')) -> other = 9).
Proof.
  apply (drawAt_glyph_round_trip d 3 9 false power_on).
  - concrete_wiring.
  - lia.
Defined.

(* ================================================================== *)
(** ** The blinking dot and the refresh of the cache *)

(** On counts that do not wrap: half a period on, the expression of
    [loop] is the opposite; a full period on, the same. *)
Lemma blinkingDotState_flips (t : Z) :
  0 <= t ->
  blinkingDotState (t + DOT_BLINK_PERIOD / 2) = negb (blinkingDotState t) /\
  blinkingDotState (t + DOT_BLINK_PERIOD) = blinkingDotState t.
Proof.
  intros Ht. unfold blinkingDotState, DOT_BLINK_PERIOD.
  change (1000 / 2) with 500. change (Z.quot 1000 2) with 500.
  rewrite !Z.rem_mod_nonneg by lia.
  split.
  - destruct (Z.geb_spec ((t + 500) mod 1000) 500),
             (Z.geb_spec (t mod 1000) 500); simpl; try reflexivity;
      exfalso; Z.to_euclidean_division_equations; lia.
  - destruct (Z.geb_spec ((t + 1000) mod 1000) 500),
             (Z.geb_spec (t mod 1000) 500); simpl; try reflexivity;
      exfalso; Z.to_euclidean_division_equations; lia.
Qed.


(** X7.  A turn of [loop] entered at true time [now], with the time stamp
    taken at true time [Ts] less than 2^32 ms earlier: if fewer than
    [READ_TIME_PERIOD] ms have passed it reads no clock and keeps the cache
    and the stamp; if [READ_TIME_PERIOD] ms or more have passed it reads the
    clock exactly once, caches that reading and takes a new stamp after it.
    The [unsigned long] subtraction makes this hold across the wrap-around
    of [millis()]. *)
Theorem loop_refreshes_when_due w Ts :
  advancing w ->
  two_digits (currentDateTime w) -> (forall t, two_digits (rtc w t)) ->
  lastReadTimestamp w = Ts mod ULONG -> Ts <= now w < Ts + ULONG ->
  exists w' tr,
    loop w = Some (tt, w', tr) /\
    (now w < Ts + READ_TIME_PERIOD ->
       reads tr = [] /\
       currentDateTime w' = currentDateTime w /\
       lastReadTimestamp w' = lastReadTimestamp w) /\
    (Ts + READ_TIME_PERIOD <= now w ->
       exists r s,
         reads tr = [(r, rtc w r)] /\
         currentDateTime w' = rtc w r /\
         lastReadTimestamp w' = s mod ULONG /\
         now w <= r <= s /\ s <= now w').
Proof.
  intros Ha Hc Hrtc Hst Hgap.
  destruct (loop_run w Hc Hrtc)
    as (w' & tr & t & E & _ & _ & _ & _ & _ & _ & R).
  exists w', tr. split; [exact E|].
  assert (Hdiff : (now w mod ULONG - lastReadTimestamp w) mod ULONG = now w - Ts).
  { rewrite Hst, <- Zminus_mod. apply Z.mod_small. lia. }
  destruct R as [Hlt Hr Hcur Hlast | r s Hge Hr Hcur Hlast Htime];
    rewrite Hdiff in *.
  - split; [intros _; repeat split; assumption | intros Hdue; lia].
  - split; [intros Hearly; lia|].
    intros _. exists r, s. specialize (Htime Ha). repeat split; try assumption; lia.
Qed.

Lemma loop_refreshes_when_due_witness :
  exists w' tr,
    loop wrapped_world = Some (tt, w', tr) /\
    (now wrapped_world < (ULONG - 500) + READ_TIME_PERIOD ->
       reads tr = [] /\
       currentDateTime w' = currentDateTime wrapped_world /\
       lastReadTimestamp w' = lastReadTimestamp wrapped_world) /\
    ((ULONG - 500) + READ_TIME_PERIOD <= now wrapped_world ->
       exists r s,
         reads tr = [(r, rtc wrapped_world r)] /\
         currentDateTime w' = rtc wrapped_world r /\
         lastReadTimestamp w' = s mod ULONG /\
         now wrapped_world <= r <= s /\ s <= now w').
Proof.
  apply (loop_refreshes_when_due wrapped_world (ULONG - 500)).
  - intros n. simpl. lia.
  - unfold two_digits. simpl. lia.
  - intros t. unfold two_digits. simpl. lia.
  - reflexivity.
  - unfold ULONG. simpl. lia.
Defined.

(* ================================================================== *)
(** ** How long the display code blocks *)

Lemma takes_ret {A : Type} (a : A) : takes (ret a) 0.
Proof.
  intros w a' w' tr H. injection H as _ <- _. split; [reflexivity | lia].
Qed.

Lemma takes_le {A : Type} (m : M A) k k' :
  takes m k -> k' <= k -> takes m k'.
Proof.
  intros Hm Hk w a w' tr E. destruct (Hm w a w' tr E) as [He Hn].
  split; [exact He|]. intros Ha. specialize (Hn Ha). lia.
Qed.

Lemma takes_bind {A B : Type} (m : M A) (f : A -> M B) k1 k2 :
  takes m k1 -> (forall a, takes (f a) k2) -> takes (x <- m ;; f x) (k1 + k2).
Proof.
  intros Hm Hf w b w2 tr E. unfold bind in E.
  destruct (m w) as [[[a w1] t1]|] eqn:E1; [|discriminate].
  destruct (f a w1) as [[[b' w2'] t2]|] eqn:E2; [|discriminate].
  injection E as <- <- <-.
  destruct (Hm w a w1 t1 E1) as [He1 Hn1].
  destruct (Hf a w1 b' w2' t2 E2) as [He2 Hn2].
  split; [congruence|]. intros Ha.
  assert (Ha1 : advancing w1) by (intros n; rewrite He1; apply Ha).
  specialize (Hn1 Ha). specialize (Hn2 Ha1). lia.
Qed.

Lemma takes_spend {A : Type} (m : M A) ms :
  (forall w a w' tr, m w = Some (a, w', tr) ->
     elapse w' = elapse w /\ now w' = now w + ms + elapse w (steps w)) ->
  takes m ms.
Proof.
  intros H w a w' tr E. destruct (H w a w' tr E) as [He Hn].
  split; [exact He|]. intros Ha. specialize (Ha (steps w)). lia.
Qed.

Lemma takes_digitalWrite pin val : takes (digitalWrite pin val) 0.
Proof.
  apply takes_spend. intros w a w' tr H. injection H as _ <- _. split; reflexivity.
Qed.

Lemma takes_delay ms : takes (delay ms) ms.
Proof.
  apply takes_spend. intros w a w' tr H. injection H as _ <- _. split; reflexivity.
Qed.

Lemma takes_millis : takes millis 0.
Proof.
  apply takes_spend. intros w a w' tr H. injection H as _ <- _. split; reflexivity.
Qed.

Lemma takes_getDateTime : takes clock.getDateTime 0.
Proof.
  apply takes_spend. intros w a w' tr H. injection H as _ <- _. split; reflexivity.
Qed.

Lemma takes_array_get arr i : takes (array_get arr i) 0.
Proof.
  intros w a w' tr H. unfold array_get in H.
  destruct (i <? 0); [discriminate|].
  destruct (nth_error arr (Z.to_nat i)); [|discriminate].
  injection H as _ <- _. split; [reflexivity | lia].
Qed.

Lemma takes_globals :
  takes get_currentDateTime 0 /\ takes get_lastReadTimestamp 0 /\
  (forall dt, takes (set_currentDateTime dt) 0) /\
  (forall t, takes (set_lastReadTimestamp t) 0).
Proof.
  repeat split; intros; try lia;
    match goal with
    | H : _ = Some _ |- _ => injection H as _ <- _
    end; simpl; try reflexivity; lia.
Qed.

Ltac pace :=
  repeat first
    [ apply takes_ret | apply takes_digitalWrite | apply takes_delay
    | apply takes_millis | apply takes_getDateTime | apply takes_array_get
    | apply (proj1 takes_globals) | apply (proj1 (proj2 takes_globals))
    | apply (proj1 (proj2 (proj2 takes_globals)))
    | apply (proj2 (proj2 (proj2 takes_globals)))
    | eapply takes_bind; [|intro] ].

Lemma takes_setDigit_for self digit fuel :
  forall i mask, takes (setDigit_for self digit fuel i mask) 0.
Proof.
  induction fuel as [|fuel IH]; intros i mask; simpl.
  - intros w a w' tr H. discriminate.
  - destruct (i <? 7); [|apply takes_ret].
    eapply takes_le; [pace; apply IH | lia].
Qed.

Lemma takes_drawAt self pos digit displayDot :
  takes (drawAt self pos digit displayDot) DIGIT_DISPLAY_DELAY.
Proof.
  unfold drawAt, clean, setDigit, setPosition.
  eapply takes_le; [pace; apply takes_setDigit_for | simpl; lia].
Qed.

Lemma takes_loop : takes loop (4 * DIGIT_DISPLAY_DELAY).
Proof.
  unfold loop.
  eapply takes_le.
  - eapply takes_bind; [apply takes_millis | intro t1].
    eapply takes_bind; [apply (proj1 (proj2 takes_globals)) | intro last].
    eapply takes_bind.
    { instantiate (1 := 0).
      destruct ((t1 - last) mod ULONG >=? READ_TIME_PERIOD); [|apply takes_ret].
      eapply takes_le; [pace | lia]. }
    intros _.
    eapply takes_bind; [apply takes_millis | intro t3]. cbv zeta.
    eapply takes_bind; [apply (proj1 takes_globals) | intro c0].
    eapply takes_bind; [apply takes_drawAt | intros _].
    eapply takes_bind; [apply (proj1 takes_globals) | intro c1].
    eapply takes_bind; [apply takes_drawAt | intros _].
    eapply takes_bind; [apply (proj1 takes_globals) | intro c2].
    eapply takes_bind; [apply takes_drawAt | intros _].
    eapply takes_bind; [apply (proj1 takes_globals) | intro c3].
    apply takes_drawAt.
  - unfold DIGIT_DISPLAY_DELAY. lia.
Qed.

(** X8.  [drawAt] blocks for its dwell: on a clock that does not run
    backwards it returns no sooner than [DIGIT_DISPLAY_DELAY] ms after it
    was called. *)
Theorem drawAt_dwells self pos digit displayDot w :
  wired self -> 0 <= digit <= 9 -> advancing w ->
  exists w' tr,
    drawAt self pos digit displayDot w = Some (tt, w', tr) /\
    now w + DIGIT_DISPLAY_DELAY <= now w'.
Proof.
  intros Hw Hd Ha.
  destruct (drawAt_performs self pos digit displayDot Hw Hd w) as (w' & tr & E & _).
  exists w', tr. split; [exact E|].
  exact (proj2 (takes_drawAt self pos digit displayDot w tt w' tr E) Ha).
Qed.

Lemma drawAt_dwells_witness :
  exists w' tr,
    drawAt d 2 0 false racing_world = Some (tt, w', tr) /\
    now racing_world + DIGIT_DISPLAY_DELAY <= now w'.
Proof.
  apply (drawAt_dwells d 2 0 false racing_world).
  - concrete_wiring.
  - lia.
  - intros n. simpl. lia.
Defined.

(** X9.  A turn of [loop] holds each of the four digits for its dwell, so
    it lasts at least four times [DIGIT_DISPLAY_DELAY]: the display is swept,
    and the time stamp examined, at most once every 4 ms. *)
Theorem loop_lasts_four_dwells w :
  advancing w ->
  two_digits (currentDateTime w) -> (forall t, two_digits (rtc w t)) ->
  exists w' tr,
    loop w = Some (tt, w', tr) /\
    now w + 4 * DIGIT_DISPLAY_DELAY <= now w'.
Proof.
  intros Ha Hc Hrtc.
  destruct (loop_run w Hc Hrtc) as (w' & tr & t & E & _).
  exists w', tr. split; [exact E|].
  exact (proj2 (takes_loop w tt w' tr E) Ha).
Qed.

Lemma loop_lasts_four_dwells_witness :
  exists w' tr,
    loop (world_at 7 5 0) = Some (tt, w', tr) /\
    now (world_at 7 5 0) + 4 * DIGIT_DISPLAY_DELAY <= now w'.
Proof.
  apply (loop_lasts_four_dwells (world_at 7 5 0)).
  - intros n. simpl. lia.
  - unfold two_digits. simpl. lia.
  - intros t. unfold two_digits. simpl. lia.
Defined.

(* ================================================================== *)
(** ** The requests of the constructor *)

(** X10.  The constructor asks the board, for each of its twelve pins in
    [enum Pins] order, to make the pin an output and then to drive it LOW:
    twenty-four requests, none skipped, no pin written before it is an
    output. *)
Theorem constructor_requests
        (pin_a pin_b pin_c pin_d pin_e pin_f pin_g pin_dp
         pin_d1 pin_d2 pin_d3 pin_d4 : Z) (w : world) :
  exists self w' tr,
    Display_new pin_a pin_b pin_c pin_d pin_e pin_f pin_g pin_dp
                pin_d1 pin_d2 pin_d3 pin_d4 w = Some (self, w', tr) /\
    events tr
      = flat_map (fun p => [EPinMode p OUTPUT; EDigitalWrite p LOW])
                 [pin_a; pin_b; pin_c; pin_d; pin_e; pin_f; pin_g; pin_dp;
                  pin_d1; pin_d2; pin_d3; pin_d4] /\
    reads tr = [] /\ dwells (events tr) (levels w) = [].
Proof.
  unfold Display_new.
  set (self := mkDisplay _).
  destruct (Display_init_run self eq_refl 12%nat 13%nat 0 w)
    as (w' & tr & E & _ & _ & Hev & _); [reflexivity | lia | lia |].
  exists self, w', (tr ++ []). split.
  { unfold bind. rewrite E. reflexivity. }
  rewrite app_nil_r. split; [exact Hev|].
  split.
  - apply quiet_reads. rewrite Hev. simpl.
    repeat (apply Forall_cons; [discriminate|]). apply Forall_nil.
  - rewrite Hev. reflexivity.
Qed.

(* ================================================================== *)
(** ** A turn of [loop], part by part *)

Lemma loop_refresh_quiet w :
  exists wR trR,
    loop_refresh (now w mod ULONG) (lastReadTimestamp w) (spend 0 w)
      = Some (tt, wR, trR) /\
    levels wR = levels w /\
    Forall quiet (events trR) /\
    (currentDateTime wR = currentDateTime w \/
     exists r, currentDateTime wR = rtc w r).
Proof.
  unfold loop_refresh.
  destruct ((now w mod ULONG - lastReadTimestamp w) mod ULONG >=? READ_TIME_PERIOD).
  - eexists; eexists; split.
    { eapply bind_run; [reflexivity|]. cbv beta.
      eapply bind_run; [reflexivity|]. cbv beta.
      eapply bind_run; [reflexivity|]. cbv beta. reflexivity. }
    simpl. split; [reflexivity|]. split; [repeat constructor|].
    right. eexists. reflexivity.
  - exists (spend 0 w), []. split; [reflexivity|].
    simpl. split; [reflexivity|]. split; [constructor|]. left; reflexivity.
Qed.

Lemma loop_parts w :
  two_digits (currentDateTime w) -> (forall t, two_digits (rtc w t)) ->
  exists wR trR wa tra wb trb wc trc wd trd t3,
    loop w = Some (tt, wd,
                   (now w, EMillis (now w mod ULONG)) ::
                   trR ++ (now wR, EMillis t3) :: tra ++ trb ++ trc ++ trd) /\
    levels wR = levels w /\
    Forall quiet (events trR) /\
    two_digits (currentDateTime wd) /\
    drawAt d 0 (hour (currentDateTime wd) / 10) false (spend 0 wR)
      = Some (tt, wa, tra) /\
    drawAt d 1 (hour (currentDateTime wd) mod 10) (blinkingDotState t3) wa
      = Some (tt, wb, trb) /\
    drawAt d 2 (minute (currentDateTime wd) / 10) false wb = Some (tt, wc, trc) /\
    drawAt d 3 (minute (currentDateTime wd) mod 10) false wc = Some (tt, wd, trd).
Proof.
  intros Hc Hrtc.
  destruct (loop_refresh_quiet w) as (wR & trR & ER & LR & QR & CR).
  assert (HcR : two_digits (currentDateTime wR)).
  { destruct CR as [Ec|[r Ec]]; rewrite Ec; auto. }
  set (t3 := now wR mod ULONG).
  set (w2 := spend 0 wR).
  set (c := currentDateTime wR).
  pose proof HcR as [Hh Hm]. fold c in Hh, Hm.
  destruct (digits_of_field (hour c) Hh) as (Qh & Rh & Hq & Hr).
  destruct (digits_of_field (minute c) Hm) as (Qm & Rm & Mq & Mr).
  destruct (drawAt_performs d 0 (hour c / 10) false d_wired Hq w2)
    as (wa & tra & Ea & Oa).
  destruct (drawAt_performs d 1 (hour c mod 10) (blinkingDotState t3) d_wired Hr wa)
    as (wb & trb & Eb & Ob).
  destruct (drawAt_performs d 2 (minute c / 10) false d_wired Mq wb)
    as (wc & trc & Ec & Oc).
  destruct (drawAt_performs d 3 (minute c mod 10) false d_wired Mr wc)
    as (wd & trd & Ed & Od).
  assert (Ca : currentDateTime wa = c) by (rewrite (out_currentDateTime _ _ _ _ _ Oa); reflexivity).
  assert (Cb : currentDateTime wb = c) by (rewrite (out_currentDateTime _ _ _ _ _ Ob); exact Ca).
  assert (Cc : currentDateTime wc = c) by (rewrite (out_currentDateTime _ _ _ _ _ Oc); exact Cb).
  assert (Cd : currentDateTime wd = c) by (rewrite (out_currentDateTime _ _ _ _ _ Od); exact Cc).
  exists wR, trR, wa, tra, wb, trb, wc, trc, wd, trd, t3.
  rewrite Cd.
  split.
  { unfold loop.
    eapply (bind_run _ _ _ _ _ [_]); [reflexivity|]. cbv beta.
    eapply (bind_run _ _ _ _ _ []); [reflexivity|]. cbv beta.
    eapply (bind_run _ _ _ _ _ trR); [exact ER|]. cbv beta.
    eapply (bind_run _ _ _ _ _ [_]); [reflexivity|]. cbv beta zeta.
    eapply (bind_run _ _ _ _ _ []); [reflexivity|]. cbv beta.
    eapply (bind_run _ _ _ _ _ tra);
      [change (currentDateTime (spend 0 wR)) with c; rewrite Qh; exact Ea|]. cbv beta.
    eapply (bind_run _ _ _ _ _ []); [reflexivity|]. cbv beta.
    eapply (bind_run _ _ _ _ _ trb); [rewrite Ca, Rh; exact Eb|]. cbv beta.
    eapply (bind_run _ _ _ _ _ []); [reflexivity|]. cbv beta.
    eapply (bind_run _ _ _ _ _ trc); [rewrite Cb, Qm; exact Ec|]. cbv beta.
    eapply (bind_run _ _ _ _ _ []); [reflexivity|]. cbv beta.
    rewrite Cc, Rm. exact Ed. }
  repeat (split; [assumption|]). exact Ed.
Qed.




(* ================================================================== *)
(** ** One position at a time, turn after turn *)

Lemma replay_quiet evs (lv : Z -> level) :
  Forall quiet evs -> replay evs lv = lv.
Proof.
  induction 1 as [|e evs He _ IH]; simpl; [reflexivity|].
  destruct e; simpl in He |- *; try exact IH. contradiction.
Qed.

Lemma steady_quiet self evs lv :
  Forall quiet evs -> calm self lv -> steady self evs lv.
Proof.
  intros Hq Hc n. rewrite replay_quiet; [exact Hc|].
  now apply Forall_prefix.
Qed.

Lemma steady_app self evs1 evs2 lv :
  steady self evs1 lv -> steady self evs2 (replay evs1 lv) ->
  steady self (evs1 ++ evs2) lv.
Proof.
  intros H1 H2 n. rewrite firstn_app, replay_app.
  destruct (Nat.le_gt_cases n (length evs1)) as [Hle|Hgt].
  - replace (n - length evs1)%nat with 0%nat by lia. simpl. apply H1.
  - assert (Hall : firstn n evs1 = evs1) by (apply firstn_all2; lia).
    rewrite Hall. apply H2.
Qed.

Lemma steady_end self evs lv : steady self evs lv -> calm self (replay evs lv).
Proof.
  intros H. specialize (H (length evs)). now rewrite firstn_all in H.
Qed.

(** One call of [drawAt] entered with at most one position selected. *)
Lemma drawAt_steady self pos digit displayDot w w' tr :
  wired self -> 0 <= digit <= 9 -> calm self (levels w) ->
  drawAt self pos digit displayDot w = Some (tt, w', tr) ->
  steady self (events tr) (levels w) /\
  levels w' = replay (events tr) (levels w).
Proof.
  intros Hw Hd Hentry E.
  destruct (drawAt_lines self pos digit displayDot w Hw Hd)
    as (w'' & tr'' & E'' & O & _ & _ & Hn).
  rewrite E in E''. injection E'' as <- <-.
  split; [|exact (out_levels _ _ _ _ _ O)].
  intros n. unfold calm in *. rewrite Hn. on_lines self w Hw.
  destruct n as [|[|[|[|n]]]].
  1-4: destruct sD1, sD2, sD3, sD4; simpl in Hentry |- *; lia.
  clear Hentry.
  destruct (position_split pos) as [?|[?|[?|[?|Hout]]]];
    [subst pos | subst pos | subst pos | subst pos
     | unfold drawAt_acts; rewrite (setPosition_acts_outside pos Hout)].
  all: do 14 (destruct n as [|n]; [simpl; lia|]); simpl; lia.
Qed.

Lemma loop_steady w :
  two_digits (currentDateTime w) -> (forall t, two_digits (rtc w t)) ->
  calm d (levels w) ->
  exists w' tr,
    loop w = Some (tt, w', tr) /\
    steady d (events tr) (levels w) /\
    levels w' = replay (events tr) (levels w) /\
    two_digits (currentDateTime w') /\ rtc w' = rtc w.
Proof.
  intros Hc Hrtc Hcalm.
  destruct (loop_parts w Hc Hrtc)
    as (wR & trR & wa & tra & wb & trb & wc & trc & wd & trd & t3
        & E & LR & QR & Hcd & Ea & Eb & Ec & Ed).
  destruct (loop_run w Hc Hrtc) as (w' & tr & t & E' & _ & Y & _).
  rewrite E in E'. injection E' as <- <-.
  pose proof Hcd as [Hh Hm].
  destruct (digits_of_field _ Hh) as (_ & _ & Hq & Hr).
  destruct (digits_of_field _ Hm) as (_ & _ & Mq & Mr).
  set (head := EMillis (now w mod ULONG) :: events trR ++ [EMillis t3]).
  assert (Hhead : Forall quiet head).
  { constructor; [exact I|]. apply Forall_app. split; [exact QR | repeat constructor]. }
  assert (Hev : events ((now w, EMillis (now w mod ULONG))
                        :: trR ++ (now wR, EMillis t3) :: tra ++ trb ++ trc ++ trd)
                = head ++ events tra ++ events trb ++ events trc ++ events trd).
  { change ((now w, EMillis (now w mod ULONG))
            :: trR ++ (now wR, EMillis t3) :: tra ++ trb ++ trc ++ trd)
      with ([(now w, EMillis (now w mod ULONG))]
            ++ trR ++ [(now wR, EMillis t3)] ++ tra ++ trb ++ trc ++ trd).
    rewrite !events_app. unfold head. simpl. rewrite <- !app_assoc. reflexivity. }
  assert (L2 : levels (spend 0 wR) = levels w) by exact LR.
  assert (Hcalm2 : calm d (levels (spend 0 wR))) by (rewrite L2; exact Hcalm).
  destruct (drawAt_steady d _ _ _ _ _ _ d_wired Hq Hcalm2 Ea) as [Sa La].
  rewrite L2 in Sa, La.
  assert (Ca : calm d (levels wa)) by (rewrite La; now apply steady_end).
  destruct (drawAt_steady d _ _ _ _ _ _ d_wired Hr Ca Eb) as [Sb Lb].
  assert (Cb : calm d (levels wb)) by (rewrite Lb; now apply steady_end).
  destruct (drawAt_steady d _ _ _ _ _ _ d_wired Mq Cb Ec) as [Sc Lc].
  assert (Cc : calm d (levels wc)) by (rewrite Lc; now apply steady_end).
  destruct (drawAt_steady d _ _ _ _ _ _ d_wired Mr Cc Ed) as [Sd Ld].
  eexists; eexists. split; [exact E|]. rewrite Hev.
  split; [|split; [|split; [exact Hcd | exact Y]]].
  - apply steady_app; [now apply steady_quiet|].
    rewrite (replay_quiet head) by exact Hhead.
    apply steady_app; [exact Sa|]. rewrite <- La.
    apply steady_app; [exact Sb|]. rewrite <- Lb.
    apply steady_app; [exact Sc|]. rewrite <- Lc. exact Sd.
  - rewrite replay_app, (replay_quiet head) by exact Hhead.
    rewrite !replay_app, <- La, <- Lb, <- Lc. exact Ld.
Qed.

(** X12.  Once at most one digit-select line is active, it stays so: at
    every instant of any number of turns of [loop], before and after each
    request to the board, at most one position is selected. *)
Theorem loops_one_position_at_a_time n w :
  two_digits (currentDateTime w) -> (forall t, two_digits (rtc w t)) ->
  calm d (levels w) ->
  exists w' tr,
    loops n w = Some (tt, w', tr) /\
    steady d (events tr) (levels w) /\
    calm d (levels w').
Proof.
  revert w. induction n as [|n IH]; intros w Hc Hrtc Hcalm.
  - exists w, []. split; [reflexivity|]. split; [|exact Hcalm].
    intros k. destruct k; exact Hcalm.
  - destruct (loop_steady w Hc Hrtc Hcalm) as (w1 & tr1 & E1 & S1 & L1 & Hc1 & Y1).
    assert (Hcalm1 : calm d (levels w1)) by (rewrite L1; now apply steady_end).
    assert (Hrtc1 : forall t, two_digits (rtc w1 t)) by (intros t; rewrite Y1; apply Hrtc).
    destruct (IH w1 Hc1 Hrtc1 Hcalm1) as (w' & tr & E & S & Hend).
    exists w', (tr1 ++ tr). split.
    { simpl loops. eapply bind_run; [exact E1 | exact E]. }
    split; [|exact Hend].
    rewrite events_app. apply steady_app; [exact S1|]. rewrite <- L1. exact S.
Qed.

Lemma loops_one_position_at_a_time_witness :
  calm d (levels after_first_draw) /\
  exists w' tr,
    loops 2 after_first_draw = Some (tt, w', tr) /\
    steady d (events tr) (levels after_first_draw) /\
    calm d (levels w').
Proof.
  assert (Hcalm : calm d (levels after_first_draw)) by (unfold calm; vm_compute; lia).
  split; [exact Hcalm|].
  apply (loops_one_position_at_a_time 2 after_first_draw).
  - assert (Hc : currentDateTime after_first_draw = mkDateTime 0 0)
      by (vm_compute; reflexivity).
    rewrite Hc. unfold two_digits. simpl. lia.
  - assert (Hr : rtc after_first_draw = fun _ => mkDateTime 0 0)
      by (vm_compute; reflexivity).
    intros t. rewrite Hr. unfold two_digits. simpl. lia.
  - exact Hcalm.
Defined.

(* ================================================================== *)
(** ** The blink phase and the true time *)

Lemma punctual_ret {A : Type} (a : A) : punctual (ret a).
Proof.
  intros w a' w' tr H. injection H as _ <- <-.
  split; [reflexivity|]. split; [constructor|].
  intros _. split; [lia | constructor].
Qed.

Lemma punctual_bind {A B : Type} (m : M A) (f : A -> M B) :
  punctual m -> (forall a, punctual (f a)) -> punctual (x <- m ;; f x).
Proof.
  intros Hm Hf w b w2 tr E. unfold bind in E.
  destruct (m w) as [[[a w1] t1]|] eqn:E1; [|discriminate].
  destruct (f a w1) as [[[b' w2'] t2]|] eqn:E2; [|discriminate].
  injection E as <- <- <-.
  destruct (Hm w a w1 t1 E1) as (He1 & Hs1 & Hn1).
  destruct (Hf a w1 b' w2' t2 E2) as (He2 & Hs2 & Hn2).
  split; [congruence|]. split; [apply Forall_app; split; assumption|].
  intros Ha.
  assert (Ha1 : advancing w1) by (intros n; rewrite He1; apply Ha).
  destruct (Hn1 Ha) as [N1 F1]. destruct (Hn2 Ha1) as [N2 F2].
  split; [lia|]. apply Forall_app. split.
  - eapply Forall_impl; [|exact F1]. simpl. intros e He. lia.
  - eapply Forall_impl; [|exact F2]. simpl. intros e He. lia.
Qed.

Lemma punctual_spend {A : Type} (m : M A) ms :
  0 <= ms ->
  (forall w a w' tr, m w = Some (a, w', tr) ->
     elapse w' = elapse w /\ now w' = now w + ms + elapse w (steps w) /\
     exists e, tr = [(now w, e)] /\ stamped (now w, e)) ->
  punctual m.
Proof.
  intros Hms H w a w' tr E. destruct (H w a w' tr E) as (He & Hn & e & -> & Hst).
  split; [exact He|]. split; [repeat constructor; exact Hst|].
  intros Ha. specialize (Ha (steps w)). split; [lia|].
  repeat constructor; simpl; lia.
Qed.

Ltac one_request :=
  intros w a w' tr H; injection H as _ <- <-;
  split; [reflexivity|]; split; [reflexivity|];
  eexists; split; [reflexivity|]; unfold stamped; simpl;
  first [exact I | reflexivity].

Lemma punctual_digitalWrite pin val : punctual (digitalWrite pin val).
Proof. apply (punctual_spend _ 0); [lia | one_request]. Qed.

Lemma punctual_delay ms : 0 <= ms -> punctual (delay ms).
Proof. intros Hms. apply (punctual_spend _ ms); [exact Hms | one_request]. Qed.

Lemma punctual_millis : punctual millis.
Proof. apply (punctual_spend _ 0); [lia | one_request]. Qed.

Lemma punctual_getDateTime : punctual clock.getDateTime.
Proof. apply (punctual_spend _ 0); [lia | one_request]. Qed.

Lemma punctual_array_get arr i : punctual (array_get arr i).
Proof.
  intros w a w' tr H. unfold array_get in H.
  destruct (i <? 0); [discriminate|].
  destruct (nth_error arr (Z.to_nat i)); [|discriminate].
  injection H as _ <- <-.
  split; [reflexivity|]. split; [constructor|].
  intros _. split; [lia | constructor].
Qed.

Lemma punctual_globals :
  punctual get_currentDateTime /\ punctual get_lastReadTimestamp /\
  (forall dt, punctual (set_currentDateTime dt)) /\
  (forall t, punctual (set_lastReadTimestamp t)).
Proof.
  repeat split;
    match goal with
    | H : _ = Some _ |- _ => injection H as _ <- <-
    end; simpl; try reflexivity; try constructor; lia.
Qed.

Ltac on_time :=
  repeat first
    [ apply punctual_ret | apply punctual_digitalWrite
    | apply punctual_millis | apply punctual_getDateTime
    | apply punctual_array_get
    | apply (proj1 punctual_globals) | apply (proj1 (proj2 punctual_globals))
    | apply (proj1 (proj2 (proj2 punctual_globals)))
    | apply (proj2 (proj2 (proj2 punctual_globals)))
    | apply punctual_bind; [|intro] ].

Lemma punctual_setDigit_for self digit fuel :
  forall i mask, punctual (setDigit_for self digit fuel i mask).
Proof.
  induction fuel as [|fuel IH]; intros i mask; simpl.
  - intros w a w' tr H. discriminate.
  - destruct (i <? 7); [|apply punctual_ret].
    on_time. apply IH.
Qed.

Lemma punctual_drawAt self pos digit displayDot :
  punctual (drawAt self pos digit displayDot).
Proof.
  unfold drawAt, clean, setDigit, setPosition.
  on_time; try apply punctual_setDigit_for.
  apply punctual_delay. unfold DIGIT_DISPLAY_DELAY. lia.
Qed.

Lemma punctual_loop : punctual loop.
Proof.
  unfold loop.
  apply punctual_bind; [apply punctual_millis | intro t1].
  apply punctual_bind; [apply (proj1 (proj2 punctual_globals)) | intro last].
  apply punctual_bind.
  { destruct ((t1 - last) mod ULONG >=? READ_TIME_PERIOD); on_time. }
  intros _.
  apply punctual_bind; [apply punctual_millis | intro t3]. cbv zeta.
  apply punctual_bind; [apply (proj1 punctual_globals) | intro c0].
  apply punctual_bind; [apply punctual_drawAt | intros _].
  apply punctual_bind; [apply (proj1 punctual_globals) | intro c1].
  apply punctual_bind; [apply punctual_drawAt | intros _].
  apply punctual_bind; [apply (proj1 punctual_globals) | intro c2].
  apply punctual_bind; [apply punctual_drawAt | intros _].
  apply punctual_bind; [apply (proj1 punctual_globals) | intro c3].
  apply punctual_drawAt.
Qed.

Lemma last_millis_at_fold (tr : trace) :
  forall acc,
    fold_left (fun acc e => match e with EMillis v => Some v | _ => acc end)
              (events tr) (option_map snd acc)
    = option_map snd
        (fold_left (fun acc e => match snd e with
                                 | EMillis v => Some (fst e, v)
                                 | _ => acc
                                 end) tr acc).
Proof.
  induction tr as [|[T e] tr IH]; intros acc; simpl; [reflexivity|].
  rewrite <- IH. destruct e; reflexivity.
Qed.

Lemma last_millis_at_In (tr : trace) :
  forall acc T v,
    fold_left (fun acc e => match snd e with
                            | EMillis v => Some (fst e, v)
                            | _ => acc
                            end) tr acc = Some (T, v) ->
    In (T, EMillis v) tr \/ acc = Some (T, v).
Proof.
  induction tr as [|[T0 e] tr IH]; intros acc T v H; simpl in H; [now right|].
  destruct (IH _ _ _ H) as [Hin|Hacc]; [left; now right|].
  destruct e; simpl in Hacc; try (now right).
  injection Hacc as -> ->. left. now left.
Qed.

(** The reading of [millis()] a turn of [loop] blinks by: taken at a true
    time [T] within the turn, it is [T mod 2^32], and the dot of position 1
    is the phase of that reading. *)
Lemma loop_dot w :
  two_digits (currentDateTime w) -> (forall t, two_digits (rtc w t)) ->
  exists w' tr T,
    loop w = Some (tt, w', tr) /\
    last_millis_at tr = Some (T, T mod ULONG) /\
    (advancing w -> now w <= T <= now w') /\
    map dotted (frames d (events tr) (levels w))
    = [false; blinkingDotState (T mod ULONG); false; false].
Proof.
  intros Hc Hrtc.
  destruct (loop_run w Hc Hrtc) as (w' & tr & t & E & _ & _ & _ & _ & Hm & Hf & _).
  destruct (punctual_loop w tt w' tr E) as (_ & Hst & Htime).
  unfold last_millis in Hm.
  change (@None Z) with (option_map (@snd Z Z) None) in Hm.
  rewrite last_millis_at_fold in Hm. fold (last_millis_at tr) in Hm.
  destruct (last_millis_at tr) as [[T v]|] eqn:Hat; [|discriminate].
  simpl in Hm. injection Hm as ->.
  destruct (last_millis_at_In tr None T t Hat) as [Hin|Hno]; [|discriminate].
  pose proof (proj1 (Forall_forall _ _) Hst _ Hin) as Hv.
  unfold stamped in Hv. simpl in Hv. subst t.
  exists w', tr, T. split; [exact E|]. split; [exact Hat|].
  split.
  - intros Ha. destruct (Htime Ha) as [_ Hrange].
    exact (proj1 (Forall_forall _ _) Hrange _ Hin).
  - rewrite Hf. reflexivity.
Qed.


Lemma transcript_run {A : Type} (m : M A) w a w' tr :
  m w = Some (a, w', tr) -> transcript m w = tr.
Proof. intros E. unfold transcript. rewrite E. reflexivity. Qed.



(** X6.  Two turns of [loop] whose readings of [millis()] are taken half
    a period apart in true time show opposite dots, and a full period apart
    the same dot, provided the counter does not wrap around between the two
    readings; two turns with the same reading show the same dot. *)
Theorem loop_dot_flips w1 w2 :
  two_digits (currentDateTime w1) -> (forall t, two_digits (rtc w1 t)) ->
  two_digits (currentDateTime w2) -> (forall t, two_digits (rtc w2 t)) ->
  exists w1' tr1 T1 w2' tr2 T2,
    loop w1 = Some (tt, w1', tr1) /\
    loop w2 = Some (tt, w2', tr2) /\
    last_millis_at tr1 = Some (T1, T1 mod ULONG) /\
    last_millis_at tr2 = Some (T2, T2 mod ULONG) /\
    (T2 = T1 + DOT_BLINK_PERIOD / 2 ->
     T1 mod ULONG + DOT_BLINK_PERIOD / 2 < ULONG ->
     nth 1 (map dotted (frames d (events tr2) (levels w2))) false
     = negb (nth 1 (map dotted (frames d (events tr1) (levels w1))) false)) /\
    (T2 = T1 + DOT_BLINK_PERIOD ->
     T1 mod ULONG + DOT_BLINK_PERIOD < ULONG ->
     nth 1 (map dotted (frames d (events tr2) (levels w2))) false
     = nth 1 (map dotted (frames d (events tr1) (levels w1))) false) /\
    (T2 mod ULONG = T1 mod ULONG ->
     nth 1 (map dotted (frames d (events tr2) (levels w2))) false
     = nth 1 (map dotted (frames d (events tr1) (levels w1))) false).
Proof.
  intros Hc1 Hr1 Hc2 Hr2.
  destruct (loop_dot w1 Hc1 Hr1) as (w1' & tr1 & T1 & E1 & A1 & _ & D1).
  destruct (loop_dot w2 Hc2 Hr2) as (w2' & tr2 & T2 & E2 & A2 & _ & D2).
  exists w1', tr1, T1, w2', tr2, T2.
  split; [exact E1|]. split; [exact E2|]. split; [exact A1|]. split; [exact A2|].
  rewrite D1, D2. simpl nth.
  assert (Hpos : 0 <= T1 mod ULONG < ULONG).
  { apply Z.mod_pos_bound. unfold ULONG. lia. }
  assert (Hshift : forall k, 0 <= k -> T1 mod ULONG + k < ULONG ->
                             (T1 + k) mod ULONG = T1 mod ULONG + k).
  { intros k Hk Hlt. rewrite <- Zplus_mod_idemp_l. apply Z.mod_small. lia. }
  destruct (blinkingDotState_flips (T1 mod ULONG) (proj1 Hpos)) as [Hhalf Hfull].
  split; [|split].
  - intros -> Hlt. rewrite Hshift; [exact Hhalf | apply Z.div_pos; unfold DOT_BLINK_PERIOD; lia | exact Hlt].
  - intros -> Hlt. rewrite Hshift; [exact Hfull | unfold DOT_BLINK_PERIOD; lia | exact Hlt].
  - intros ->. reflexivity.
Qed.

Lemma loop_dot_flips_witness :
  exists w1' tr1 T1 w2' tr2 T2,
    loop (world_when 1250) = Some (tt, w1', tr1) /\
    loop (world_when 1750) = Some (tt, w2', tr2) /\
    last_millis_at tr1 = Some (T1, T1 mod ULONG) /\
    last_millis_at tr2 = Some (T2, T2 mod ULONG) /\
    T1 = 1250 /\ T2 = 1750 /\
    nth 1 (map dotted (frames d (events tr2) (levels (world_when 1750)))) false
    = negb (nth 1 (map dotted (frames d (events tr1) (levels (world_when 1250)))) false).
Proof.
  destruct (loop_dot_flips (world_when 1250) (world_when 1750))
    as (w1' & tr1 & T1 & w2' & tr2 & T2 & E1 & E2 & A1 & A2 & Hhalf & _ & _).
  - unfold two_digits. simpl. lia.
  - intros t. unfold two_digits. simpl. lia.
  - unfold two_digits. simpl. lia.
  - intros t. unfold two_digits. simpl. lia.
  - assert (R1 : last_millis_at (transcript loop (world_when 1250))
                 = Some (1250, 1250)) by (vm_compute; reflexivity).
    assert (R2 : last_millis_at (transcript loop (world_when 1750))
                 = Some (1750, 1750)) by (vm_compute; reflexivity).
    rewrite (transcript_run _ _ _ _ _ E1), A1 in R1.
    rewrite (transcript_run _ _ _ _ _ E2), A2 in R2.
    injection R1 as H1 _. injection R2 as H2 _.
    exists w1', tr1, T1, w2', tr2, T2.
    repeat (split; [assumption|]).
    apply Hhalf.
    + rewrite H1, H2. reflexivity.
    + rewrite H1. unfold ULONG, DOT_BLINK_PERIOD. simpl. lia.
Defined.

(** Across the wrap-around the dot does not keep its rhythm: read at
    2^32 - 100 ms and again 500 ms later, it is off both times. *)
Lemma dot_stays_off_across_wrap :
  map dotted (frames d (requests loop (world_when (ULONG - 100)))
                     (levels (world_when (ULONG - 100))))
    = [false; false; false; false] /\
  map dotted (frames d (requests loop (world_when (ULONG + 400)))
                     (levels (world_when (ULONG + 400))))
    = [false; false; false; false].
Proof. split; vm_compute; reflexivity. Qed.
